(** * LSB steganography and watermark fitting of [items/processors.py]

    A shallow embedding of the image processors of django-watermark-images:
    [lsb_encode] / [lsb_decode] (a pickled payload hidden in the least
    significant bits of the red band) and the size computation and alpha
    mask of [add_watermark].

    Pillow images are records of a mode, a size and one pixel list per band
    in raster order; numpy's bit packing, Pillow's [ImageMath] expressions
    and Python's exceptions are written out as the source uses them. *)

From Stdlib Require Import ZArith QArith Qround.
From Stdlib Require Import PrimFloat FloatOps SpecFloat Uint63.
From Stdlib.Strings Require Import Byte.
From stdpp Require Import base tactics option list numbers strings.

Local Open Scope Z_scope.
#[local] Set Warnings "-inexact-float".

(** ** Python exceptions and results *)

Inductive exn : Set :=
  | UnpicklingError
  | EOFError
  | ValueError
  | OverflowError
  | ZeroDivisionError
  | NotModelled. (* not an exception: input outside a modelled fragment *)

#[global] Instance exn_eq_dec : EqDecision exn.
Proof. solve_decision. Defined.

(** What a call does: it returns a value or raises. *)
Inductive outcome (A : Type) : Type :=
  | Returns (a : A)
  | Raises (e : exn).
Arguments Returns {A} a.
Arguments Raises {A} e.

#[global] Instance outcome_ret : MRet outcome := @Returns.
#[global] Instance outcome_bind : MBind outcome := λ A B f m,
  match m with
  | Returns a => f a
  | Raises e => Raises e
  end.

(** [try: body except caught: return fallback]: one exception class is
    handled, every other one propagates. *)
Definition try_except {A} (body : outcome A) (caught : exn) (fallback : A)
  : outcome A :=
  match body with
  | Returns a => Returns a
  | Raises e => if decide (e = caught) then Returns fallback else Raises e
  end.

(** ** Pillow images *)

Record image : Type := Image {
  im_mode : string;
  im_size : nat * nat;
  im_bands : list (list Z)
}.

Definition npixels (size : nat * nat) : nat := (size.1 * size.2)%nat.

(** The pixels of a single-band image, in raster order ([getdata]). *)
Definition getdata (im : image) : list Z := default [] (head (im_bands im)).

Definition uint8 (v : Z) : Prop := 0 ≤ v < 256.
Definition is_bit (v : Z) : Prop := v = 0 ∨ v = 1.

#[global] Instance uint8_dec v : Decision (uint8 v).
Proof. unfold uint8. apply _. Defined.
#[global] Instance is_bit_dec v : Decision (is_bit v).
Proof. unfold is_bit. apply _. Defined.

(** A band of [n] 8-bit pixels. *)
Definition channel (n : nat) (c : list Z) : Prop :=
  length c = n ∧ Forall uint8 c.

(** An image whose bands all hold one 8-bit value per pixel. *)
Definition wf_image (im : image) : Prop :=
  Forall (channel (npixels (im_size im))) (im_bands im).

(** An image in mode RGB: three 8-bit bands. *)
Definition rgb_image (im : image) : Prop :=
  im_mode im = "RGB" ∧ length (im_bands im) = 3%nat ∧ wf_image im.

#[global] Instance channel_dec n c : Decision (channel n c).
Proof. unfold channel. apply _. Defined.
#[global] Instance rgb_image_dec im : Decision (rgb_image im).
Proof. unfold rgb_image, wf_image. apply _. Defined.

(** [Image.new(mode, size, color)]: every pixel has the given colour, one
    component per band. *)
Definition new (mode : string) (size : nat * nat) (color : list Z) : image :=
  Image mode size ((λ c, replicate (npixels size) c) <$> color).

Definition getmodebands (mode : string) : nat :=
  if decide (mode = "RGB") then 3
  else if decide (mode = "RGBA") then 4
  else 1.

(** [Image.frombytes(data=..., size=..., mode='L')]: the raw decoder is
    handed the whole image as its tile and refuses one without pixels
    ("tile cannot extend outside image"); otherwise it fills the image row
    by row, raises when the data runs out before the image is full ("not
    enough image data") and ignores what is left over. *)
Definition frombytes (data : list Z) (size : nat * nat) (mode : string)
  : outcome image :=
  if decide (npixels size = 0%nat) then Raises ValueError
  else if decide (length data < npixels size)%nat then Raises ValueError
  else Returns (Image mode size [take (npixels size) data]).

(** [image.split()]: one mode L image per band. *)
Definition split (im : image) : list image :=
  (λ b, Image "L" (im_size im) [b]) <$> im_bands im.

(** [red, green, blue = ...]: unpacking a sequence into three names. *)
Definition unpack3 {A} (l : list A) : outcome (A * A * A) :=
  match l with
  | [a; b; c] => Returns (a, b, c)
  | _ => Raises ValueError
  end.

(** [Image.merge(mode, bands)]. *)
Definition merge (mode : string) (bs : list image) : outcome image :=
  match bs with
  | [] => Raises ValueError
  | b0 :: rest =>
      if decide (getmodebands mode ≠ length bs) then Raises ValueError
      else if decide (Forall (λ b, im_mode b = "L" ∧ im_size b = im_size b0) rest)
      then Returns (Image mode (im_size b0) (getdata <$> bs))
      else Raises ValueError
  end.

(** Conversion of a mode I (32-bit) pixel to mode L: clipped to 0..255. *)
Definition i2l (v : Z) : Z :=
  if decide (v ≤ 0) then 0 else if decide (255 ≤ v) then 255 else v.

(** [image.convert('L')] on a single-band integer image. *)
Definition convert_L (im : image) : image :=
  Image "L" (im_size im) [i2l <$> getdata im].

(** [ImageMath.eval("convert(a&0xFE|b&0x1,'L')", a=..., b=...)]: [&] binds
    tighter than [|]; both operands have the size of the input image. *)
Definition embed (a b : list Z) : list Z :=
  zip_with (λ x y, i2l (Z.lor (Z.land x 0xFE) (Z.land y 0x1))) a b.

Definition eval_embed (a b : image) : image :=
  Image "L" (im_size a) [embed (getdata a) (getdata b)].

(** [ImageMath.eval("(a&0x1)*0x01", a=...)], a mode I image. *)
Definition eval_lsb (a : image) : image :=
  Image "I" (im_size a) [(λ x, Z.land x 0x1 * 0x01) <$> getdata a].

(** The bits the decoder reads off a band: the expression above followed
    by [convert('L')]. *)
Definition extract (a : list Z) : list Z :=
  i2l <$> ((λ x, Z.land x 0x1 * 0x01) <$> a).

(** ** numpy: bytes and bits *)

#[global] Instance byte_eq_dec : EqDecision byte := Byte.byte_eq_dec.

Definition Z_of_byte (b : byte) : Z := Z.of_N (Byte.to_N b).
Definition byte_of_Z (v : Z) : byte := default "000"%byte (Byte.of_N (Z.to_N v)).

(** [np.fromiter(data, dtype=np.uint8)] over a bytes object. *)
Definition fromiter (data : list byte) : list Z := Z_of_byte <$> data.

(** [bytes(array)] of a uint8 array. *)
Definition to_bytes (arr : list Z) : list byte := byte_of_Z <$> arr.

(** The eight bits of a uint8, most significant first. *)
Definition unpack8 (v : Z) : list Z :=
  (λ k, Z.b2z (Z.testbit v k)) <$> [7; 6; 5; 4; 3; 2; 1; 0].

(** [np.unpackbits(array)] *)
Definition unpackbits (arr : list Z) : list Z := arr ≫= unpack8.

(** [np.packbits(array)]: every non-zero element counts as a one bit, bits
    are packed most significant first, and the last byte is filled up with
    zero bits. [acc] holds the [n] bits of the byte under construction. *)
Fixpoint packbits_from (acc : Z) (n : nat) (bits : list Z) : list Z :=
  match bits with
  | [] => if decide (n = 0%nat) then [] else [Z.shiftl acc (8 - Z.of_nat n)]
  | b :: bits' =>
      let acc' := 2 * acc + (if decide (b = 0) then 0 else 1) in
      if decide (n = 7%nat) then acc' :: packbits_from 0 0 bits'
      else packbits_from acc' (S n) bits'
  end.

Definition packbits (bits : list Z) : list Z := packbits_from 0 0 bits.

(** ** pickle *)

(** The pickle module as the processors use it: [dump] into a fresh
    [BytesIO] followed by [getvalue], [load] from a [BytesIO] over the given
    bytes, and the empty string among the values. The pickler ends every
    pickle with the opcode [STOP], so that none is empty. *)
Class Pickle (obj : Type) := {
  dump : obj → list byte;
  load : list byte → outcome obj;
  empty_str : obj;
  dump_nonempty : ∀ data, dump data ≠ []
}.

(** ** The processors *)

Section processors.
Context {obj : Type} `{!Pickle obj}.

Definition lsb_encode (data : obj) (image_ : image) : outcome image :=
  let data_bytes := dump data in
  let data_bytes_array := fromiter data_bytes in
  let data_bits_list := unpackbits data_bytes_array in
  (* a list times a negative count is the empty list *)
  let data_bits_list :=
    data_bits_list
      ++ replicate (npixels (im_size image_) - length data_bits_list) 0 in
  watermark ← frombytes data_bits_list (im_size image_) "L";
  '(red, green, blue) ← unpack3 (split image_);
  let watermarked_red := eval_embed red watermark in
  merge "RGB" [watermarked_red; green; blue].

Definition lsb_decode (image_ : image) : outcome obj :=
  try_except
    ('(red, green, blue) ← unpack3 (split image_);
     let watermark := eval_lsb red in
     let watermark := convert_L watermark in
     let watermark_bytes := getdata watermark in
     let watermark_bits_array := watermark_bytes in
     let watermark_bytes_array := packbits watermark_bits_array in
     let watermark_bytes := to_bytes watermark_bytes_array in
     load watermark_bytes)
    UnpicklingError empty_str.

(** The bits [lsb_encode] hands to [Image.frombytes]: the payload's,
    filled up with zeros when they are fewer than the pixels. *)
Definition payload_bits (data : obj) (size : nat * nat) : list Z :=
  let bits := unpackbits (fromiter (dump data)) in
  bits ++ replicate (npixels size - length bits) 0.

End processors.

(** ** A fragment of the pickle protocol

    Protocol 4 pickles of [None] and of short ASCII strings, read the way
    CPython's unpickler reads them: opcode by opcode, to the first [STOP],
    never looking at what follows it. It serves as the concrete [Pickle]
    instance in the examples; the theorems on the processors are stated for
    every instance. *)
Module PickleFragment.

Inductive pyobj : Set :=
  | PyNone
  | PyStr (s : list byte).

#[global] Instance pyobj_eq_dec : EqDecision pyobj.
Proof. solve_decision. Defined.

Definition PROTO : byte := "128"%byte.
Definition FRAME : byte := "149"%byte.
Definition SHORT_BINUNICODE : byte := "140"%byte.
Definition MEMOIZE : byte := "148"%byte.
Definition NONE : byte := "N"%byte.
Definition STOP : byte := "."%byte.

(** [pack('<Q', v)] and friends: [n] bytes, least significant first. *)
Fixpoint le_pack (n : nat) (v : Z) : list byte :=
  match n with
  | O => []
  | S n' => byte_of_Z (v `mod` 256) :: le_pack n' (v `div` 256)
  end.

Definition le_value (bs : list byte) : Z :=
  foldr (λ b acc, Z_of_byte b + 256 * acc) 0 bs.

Definition is_ascii (b : byte) : bool := bool_decide (Z_of_byte b < 128).

(** [pickle.dumps(o)]. Strings of more than 255 bytes and strings outside
    ASCII are written with other opcodes and are not part of the
    fragment. *)
Definition dumps (o : pyobj) : list byte :=
  match o with
  | PyNone => [PROTO; "004"%byte; NONE; STOP]
  | PyStr s =>
      let body :=
        [SHORT_BINUNICODE; byte_of_Z (Z.of_nat (length s))] ++ s
          ++ [MEMOIZE; STOP] in
      [PROTO; "004"%byte; FRAME] ++ le_pack 8 (Z.of_nat (length body)) ++ body
  end.

(** Reading [n] bytes off the input; the unpickler reports truncated data
    as an [UnpicklingError]. *)
Definition read (n : Z) (input : list byte)
  : outcome (list byte * list byte) :=
  if decide (n ≤ Z.of_nat (length input))
  then Returns (take (Z.to_nat n) input, drop (Z.to_nat n) input)
  else Raises UnpicklingError.

(** The unpickler's loop. Running out of input where an opcode is due is
    an [EOFError]; a byte that is no opcode (all opcodes lie between
    0x28 and 0x98) is an [UnpicklingError]; [NotModelled] marks the
    opcodes this fragment leaves out. Each round consumes a byte, so the
    length of the input bounds the number of rounds. *)
Fixpoint run (fuel : nat) (stack : list pyobj) (input : list byte)
  : outcome pyobj :=
  match fuel, input with
  | O, _ => Raises NotModelled
  | S _, [] => Raises EOFError
  | S fuel', op :: input =>
      if decide (op = STOP) then
        match stack with
        | v :: _ => Returns v
        | [] => Raises UnpicklingError
        end
      else if decide (op = NONE) then run fuel' (PyNone :: stack) input
      else if decide (op = PROTO) then
        '(v, input) ← read 1 input;
        if decide (5 < le_value v) then Raises ValueError
        else run fuel' stack input
      else if decide (op = FRAME) then
        '(n, input) ← read 8 input;
        if decide (2 ^ 63 ≤ le_value n) then Raises OverflowError
        else _ ← read (le_value n) input; run fuel' stack input
      else if decide (op = SHORT_BINUNICODE) then
        '(n, input) ← read 1 input;
        '(s, input) ← read (le_value n) input;
        if forallb is_ascii s then run fuel' (PyStr s :: stack) input
        else Raises NotModelled
      else if decide (op = MEMOIZE) then
        match stack with
        | _ :: _ => run fuel' stack input
        | [] => Raises UnpicklingError
        end
      else if decide (Z_of_byte op < 0x28 ∨ 0x98 < Z_of_byte op)
      then Raises UnpicklingError
      else Raises NotModelled
  end.

(** The values the fragment writes. *)
Definition in_fragment (o : pyobj) : Prop :=
  match o with
  | PyNone => True
  | PyStr s => (length s ≤ 255)%nat ∧ forallb is_ascii s = true
  end.

(** [pickle.load(BytesIO(bs))] *)
Definition loads (bs : list byte) : outcome pyobj :=
  run (S (length bs)) [] bs.

#[global] Instance pickle : Pickle pyobj.
Proof.
  refine {| dump := dumps; load := loads; empty_str := PyStr [] |}.
  by intros [].
Defined.

(** An ASCII string literal as the bytes of its UTF-8 encoding. *)
Definition str (s : string) : pyobj := PyStr (String.list_byte_of_string s).

(** [HiddenWatermarkProcessor.process] *)
Definition HiddenWatermarkProcessor_process (image_ : image) : outcome image :=
  lsb_encode (str "django-watermark-images") image_.

End PickleFragment.

(** ** The alpha mask of [add_watermark] *)

(** Luminance of an RGB pixel, as [convert("L")] computes it. *)
Definition rgb2l (r g b : Z) : Z :=
  Z.shiftr (r * 19595 + g * 38470 + b * 7471 + 0x8000) 16.

(** [image.convert("L")] on an RGB or RGBA image: the alpha band plays no
    part. *)
Definition convert_rgb_L (im : image) : image :=
  match im_bands im with
  | r :: g :: b :: _ => Image "L" (im_size im) [zip_with (λ f b, f b) (zip_with rgb2l r g) b]
  | _ => Image "L" (im_size im) [[]]
  end.

(** [image.point(f)] on an 8-bit image: [f] is tabulated over
    [range(256)], each entry clipped to 8 bits, and every pixel is looked
    up in the table. *)
Definition point (f : Z → Z) (im : image) : image :=
  let lut : list Z := (λ i, i2l (f i)) <$> seqZ 0 256 in
  Image (im_mode im) (im_size im)
    ((λ band : list Z, (λ v, default 0 (lut !! Z.to_nat v)) <$> band)
       <$> im_bands im).

(** [rgba_watermark.convert("L").point(lambda x: min(x, 90))] *)
Definition rgba_watermark_mask (rgba_watermark : image) : image :=
  point (λ x, Z.min x 90) (convert_rgb_L rgba_watermark).

(** [image.putalpha(mask)] on an RGBA image: the fourth band becomes the
    mask. *)
Definition putalpha (im mask : image) : image :=
  Image (im_mode im) (im_size im) (<[3%nat := getdata mask]> (im_bands im)).

(** An image in mode RGBA: four 8-bit bands. *)
Definition rgba_image (im : image) : Prop :=
  im_mode im = "RGBA" ∧ length (im_bands im) = 4%nat ∧ wf_image im.

#[global] Instance rgba_image_dec im : Decision (rgba_image im).
Proof. unfold rgba_image, wf_image. apply _. Defined.

(** ** Python floats

    The arithmetic [add_watermark] computes the new size with: conversion
    of an int, the IEEE product and quotient, the two comparisons, and
    [int(x)]. CPython's floats are the instance [Binary64.binary64] below;
    the exact rationals are a second one. *)
Class PyFloat (F : Type) := {
  float_of_int : Z → F;
  fmul : F → F → F;
  fdiv : F → F → F;
  flt : F → F → bool;
  fle : F → F → bool;
  int_of_float : F → outcome Z
}.

Section python_floats.
Context {F : Type} `{!PyFloat F}.

(** [y == 0]: true of both zeros, false of a NaN. *)
Definition is_zero (y : F) : bool :=
  fle y (float_of_int 0) && fle (float_of_int 0) y.

(** [x / y] *)
Definition truediv (x y : F) : outcome F :=
  if is_zero y then Raises ZeroDivisionError else Returns (fdiv x y).

(** [max(a, b)]: the first argument unless the second is greater. *)
Definition py_max (a b : F) : F := if flt a b then b else a.

(** A decimal literal [digits / scale], correctly rounded. *)
Definition literal (digits scale : Z) : F :=
  fdiv (float_of_int digits) (float_of_int scale).

(** The size the watermark is resized to in [add_watermark], from
    [rgba_image.size] and [rgba_watermark.size]. An int operand of a float
    operation is converted first; the quotient of two ints is the quotient
    of the converted operands, as it is for ints below 2^53. *)
Definition new_size (image_size watermark_size : Z * Z) : outcome (Z * Z) :=
  let '(image_x, image_y) := image_size in
  let '(watermark_x, watermark_y) := watermark_size in
  temp_image ← truediv (float_of_int image_x) (float_of_int image_y);
  temp_watermark ←
    truediv (float_of_int watermark_x) (float_of_int watermark_y);
  temp ← truediv temp_watermark temp_image;
  let constant_value :=
    if flt (float_of_int 1) temp_watermark then literal 1071 1000
    else literal 5419 1000 in
  let scale_size := fmul constant_value temp in
  scale_x ← truediv (float_of_int image_x)
              (fmul scale_size (float_of_int watermark_x));
  scale_y ← truediv (float_of_int image_y)
              (fmul scale_size (float_of_int watermark_y));
  let watermark_scale := py_max scale_x scale_y in
  new_x ← int_of_float (fmul (float_of_int watermark_x) watermark_scale);
  new_y ← int_of_float (fmul (float_of_int watermark_y) watermark_scale);
  Returns (new_x, new_y).

(** The area of the new size. *)
Definition new_area (image_size watermark_size : Z * Z) : outcome Z :=
  '(new_x, new_y) ← new_size image_size watermark_size;
  Returns (new_x * new_y).

(** *** The fitter as the specification words it

    Steps 1 to 5 of the WatermarkFitter, on base dimensions (Wb, Hb) and
    overlay dimensions (Wo, Ho); the rounding of step 5 is a parameter. *)
Section fitter.
Variables Wb Hb Wo Ho : Z.

Definition aspectBase : F := fdiv (float_of_int Wb) (float_of_int Hb).
Definition aspectOverlay : F := fdiv (float_of_int Wo) (float_of_int Ho).
Definition ratio : F := fdiv aspectOverlay aspectBase.
Definition fitConstant : F :=
  if flt (float_of_int 1) aspectOverlay then literal 1071 1000
  else literal 5419 1000.
Definition scaleSize : F := fmul fitConstant ratio.
Definition widthTerm : F :=
  fdiv (float_of_int Wb) (fmul scaleSize (float_of_int Wo)).
Definition heightTerm : F :=
  fdiv (float_of_int Hb) (fmul scaleSize (float_of_int Ho)).
Definition watermarkScale : F := py_max widthTerm heightTerm.
Definition newSize (rounding : F → outcome Z) : outcome (Z * Z) :=
  x ← rounding (fmul (float_of_int Wo) watermarkScale);
  y ← rounding (fmul (float_of_int Ho) watermarkScale);
  Returns (x, y).

(** The guard of section 4.4: a divisor that is zero. *)
Definition zero_divisor : bool :=
  is_zero (float_of_int Hb) || is_zero (float_of_int Ho)
  || is_zero aspectBase
  || is_zero (fmul scaleSize (float_of_int Wo))
  || is_zero (fmul scaleSize (float_of_int Ho)).

End fitter.

(** A test of one pair of overlays of the same width [Wo] and heights
    [Ho1], [Ho2]: when both lie on the same side of the orientation test and
    the first has the width term as its scale, both sizes are computed and
    the second area is not the smaller one. *)
Definition area_grows (Wb Hb Wo Ho1 Ho2 : Z) : bool :=
  if bool_decide (flt (float_of_int 1) (aspectOverlay Wo Ho1)
                  = flt (float_of_int 1) (aspectOverlay Wo Ho2))
     && negb (flt (widthTerm Wb Hb Wo Ho1) (heightTerm Wb Hb Wo Ho1))
  then
    match new_area (Wb, Hb) (Wo, Ho1), new_area (Wb, Hb) (Wo, Ho2) with
    | Returns a1, Returns a2 => bool_decide (a1 ≤ a2)
    | _, _ => false
    end
  else true.

End python_floats.

(** The order laws of the arithmetic: comparison is transitive, a value that
    compares is not a NaN, and conversion, product, quotient and [int] are
    monotone wherever their results are defined. For binary64 they are the
    monotonicity of IEEE-754's correctly rounded operations, which this
    development takes from the standard and does not derive; for the
    rationals they are proved below. *)
Class PyFloatLaws (F : Type) `{!PyFloat F} := {
  fle_trans (a b c : F) :
    fle a b = true → fle b c = true → fle a c = true;
  fle_defined (a b : F) :
    fle a b = true → fle a a = true ∧ fle b b = true;
  flt_fle (a b : F) : flt a b = true → fle a b = true;
  float_of_int_mono (m n : Z) :
    0 ≤ m → m ≤ n → n < 2 ^ 63 →
    fle (float_of_int m) (float_of_int n) = true;
  float_of_int_nonzero (n : Z) :
    0 < n → n < 2 ^ 63 → is_zero (float_of_int n) = false;
  fmul_defined (a b : F) :
    fle (fmul a b) (fmul a b) = true → fle a a = true ∧ fle b b = true;
  fdiv_defined (a b : F) :
    fle (fdiv a b) (fdiv a b) = true → fle a a = true ∧ fle b b = true;
  fmul_mono (a b c d : F) :
    fle (float_of_int 0) a = true → fle a b = true →
    fle (float_of_int 0) c = true → fle c d = true →
    fle (fmul a c) (fmul a c) = true → fle (fmul b d) (fmul b d) = true →
    fle (fmul a c) (fmul b d) = true;
  fmul_nonneg (a b : F) :
    fle (float_of_int 0) a = true → fle (float_of_int 0) b = true →
    fle (fmul a b) (fmul a b) = true →
    fle (float_of_int 0) (fmul a b) = true;
  fdiv_mono (a b c d : F) :
    fle (float_of_int 0) a = true → fle a b = true →
    fle (float_of_int 0) d = true → is_zero d = false → fle d c = true →
    fle (fdiv a c) (fdiv a c) = true → fle (fdiv b d) (fdiv b d) = true →
    fle (fdiv a c) (fdiv b d) = true;
  fdiv_nonneg (a d : F) :
    fle (float_of_int 0) a = true →
    fle (float_of_int 0) d = true → is_zero d = false →
    fle (fdiv a d) (fdiv a d) = true →
    fle (float_of_int 0) (fdiv a d) = true;
  int_of_float_defined (a : F) (n : Z) :
    int_of_float a = Returns n → fle a a = true;
  int_of_float_mono (a b : F) (m n : Z) :
    fle a b = true →
    int_of_float a = Returns m → int_of_float b = Returns n → m ≤ n;
  int_of_float_nonneg (a : F) (n : Z) :
    fle (float_of_int 0) a = true → int_of_float a = Returns n → 0 ≤ n
}.

(** *** CPython's floats: IEEE-754 binary64 *)
Module Binary64.

(** [float(n)] for an int below 2^63 in size, which Pillow's sizes are. *)
Definition of_int (n : Z) : float :=
  if decide (n < 0) then PrimFloat.opp (PrimFloat.of_uint63 (Uint63.of_Z (- n)))
  else PrimFloat.of_uint63 (Uint63.of_Z n).

(** [int(x)]: the integer part, towards zero. *)
Definition to_int (x : float) : outcome Z :=
  match Prim2SF x with
  | S754_zero _ => Returns 0
  | S754_infinity _ => Raises OverflowError
  | S754_nan => Raises ValueError
  | S754_finite s m e =>
      let v := Z.shiftl (Z.pos m) e in Returns (if s then - v else v)
  end.

(** [round(x)]: the nearest integer, a tie going to the even one. *)
Definition round (x : float) : outcome Z :=
  match Prim2SF x with
  | S754_zero _ => Returns 0
  | S754_infinity _ => Raises OverflowError
  | S754_nan => Raises ValueError
  | S754_finite s m e =>
      let v :=
        if decide (0 ≤ e) then Z.shiftl (Z.pos m) e
        else
          let q := Z.shiftl (Z.pos m) e in
          let twice_rest := 2 * (Z.pos m - Z.shiftl q (- e)) in
          let one := Z.shiftl 1 (- e) in
          if decide (twice_rest < one) then q
          else if decide (one < twice_rest) then q + 1
          else if Z.even q then q else q + 1 in
      Returns (if s then - v else v)
  end.

#[global] Instance binary64 : PyFloat float := {|
  float_of_int := of_int;
  fmul := PrimFloat.mul;
  fdiv := PrimFloat.div;
  flt := PrimFloat.ltb;
  fle := PrimFloat.leb;
  int_of_float := to_int
|}.

End Binary64.

(** *** Exact arithmetic: the rationals *)
Module Exact.

Definition to_int (x : Q) : outcome Z :=
  Returns (if Qle_bool 0 x then Qfloor x else Qceiling x).

#[global] Instance exact : PyFloat Q := {|
  float_of_int := inject_Z;
  fmul := Qmult;
  fdiv := Qdiv;
  flt := λ x y, negb (Qle_bool y x);
  fle := Qle_bool;
  int_of_float := to_int
|}.

End Exact.

(** ** Example images *)

(** A 20 x 16 RGB image of one colour. *)
Definition plain_image : image := new "RGB" (20, 16)%nat [200; 117; 36].

(** A 4 x 4 RGB image, too small for any pickle. *)
Definition tiny_image : image := new "RGB" (4, 4)%nat [255; 254; 0].

(** A 1 x 1 RGBA image. *)
Definition rgba_pixel : image := new "RGBA" (1, 1)%nat [1; 2; 3; 255].

(** An 8 x 1 RGB image whose red band has the low bits 0,1,0,0,1,1,1,0:
    the single byte 0x4E, the opcode [NONE], with no [STOP] after it. *)
Definition unfinished_pickle_image : image :=
  Image "RGB" (8, 1)%nat
    [[10; 11; 10; 10; 11; 11; 11; 10]; replicate 8 0; replicate 8 0].

(** ** Further definitions *)

(** The bytes [lsb_decode] hands to [pickle.load], from the red band: the
    low bits, packed. *)
Definition carrier_bytes (red : list Z) : list byte :=
  to_bytes (packbits (extract red)).

(** Where [add_watermark] pastes the resized watermark:
    [((image_x - watermark_x) // 2, (image_y - watermark_y) // 2)];
    [//] rounds down, as [Z.div] does. *)
Definition paste_position (image_size watermark_size : Z * Z) : Z * Z :=
  let '(image_x, image_y) := image_size in
  let '(watermark_x, watermark_y) := watermark_size in
  ((image_x - watermark_x) `div` 2, (image_y - watermark_y) `div` 2).

(** Lines 62 and 63 of [add_watermark]: the resized watermark with the mask
    put in place of its alpha band. *)
Definition masked_watermark (rgba_watermark : image) : image :=
  putalpha rgba_watermark (rgba_watermark_mask rgba_watermark).

(** * Properties *)

(** ** Pixels and bits *)

(** A property of all 8-bit values is settled by running through them. *)
Lemma uint8_cases (P : Z → Prop) :
  Forall P (seqZ 0 256) → ∀ v, uint8 v → P v.
Proof.
  intros HP v Hv. eapply Forall_forall; [exact HP|].
  apply elem_of_seqZ. unfold uint8 in Hv. lia.
Qed.

Ltac by_uint8_cases v Hv :=
  revert v Hv; apply uint8_cases; apply (bool_decide_unpack _);
  vm_compute; exact I.

Lemma land_1_bit (y : Z) : is_bit (Z.land y 0x1).
Proof.
  change 0x1 with (Z.ones 1). rewrite Z.land_ones by lia.
  unfold is_bit. change (2 ^ 1) with 2.
  pose proof (Z.mod_pos_bound y 2). lia.
Qed.

Lemma land_1_of_bit (y : Z) : is_bit y → Z.land y 0x1 = y.
Proof. by intros [-> | ->]. Qed.

Lemma i2l_uint8 (v : Z) : uint8 v → i2l v = v.
Proof. unfold uint8, i2l. intros. repeat case_decide; lia. Qed.

(** Replacing the lowest bit of an 8-bit value stays within 8 bits. *)
Lemma set_lsb_uint8 (x y : Z) :
  uint8 x → is_bit y → uint8 (Z.lor (Z.land x 0xFE) y).
Proof.
  intros Hx [-> | ->]; by_uint8_cases x Hx.
Qed.

Lemma set_lsb_low (x y : Z) :
  uint8 x → is_bit y → Z.land (Z.lor (Z.land x 0xFE) y) 0x1 = y.
Proof.
  intros Hx [-> | ->]; by_uint8_cases x Hx.
Qed.

(** Every bit but the lowest is the one of [x]. *)
Lemma set_lsb_high (x y : Z) (n : Z) :
  uint8 x → is_bit y → n ≠ 0 →
  Z.testbit (Z.lor (Z.land x 0xFE) y) n = Z.testbit x n.
Proof.
  intros Hx Hy Hn. rewrite Z.lor_spec, Z.land_spec.
  assert (Z.testbit y n = false) as ->.
  { destruct Hy as [-> | ->]; [apply Z.bits_0|].
    destruct (decide (n < 0)); [by apply Z.testbit_neg_r|].
    apply Z.bits_above_log2; simpl; lia. }
  rewrite orb_false_r.
  destruct (decide (n < 0)) as [|Hn0].
  { by rewrite !Z.testbit_neg_r. }
  destruct (decide (n ≤ 7)) as [Hle|Hgt].
  - assert (n ∈ seqZ 1 7) as Hin by (apply elem_of_seqZ; lia).
    assert (Forall (λ k, Z.testbit 0xFE k = true) (seqZ 1 7)) as Hall.
    { apply (bool_decide_unpack _). vm_compute. exact I. }
    rewrite (proj1 (Forall_forall _ _) Hall n Hin). apply andb_true_r.
  - assert (Z.testbit x n = false) as ->; [|done].
    destruct (decide (x = 0)) as [-> | Hx0]; [apply Z.bits_0|].
    unfold uint8 in Hx. apply Z.bits_above_log2; [lia|].
    assert (Z.log2 x < 8); [|lia].
    apply Z.log2_lt_pow2; lia.
Qed.

(** What [embed] computes at one pixel. *)
Lemma embed_pixel_value (x y : Z) :
  uint8 x → is_bit y →
  i2l (Z.lor (Z.land x 0xFE) (Z.land y 0x1)) = Z.lor (Z.land x 0xFE) y.
Proof.
  intros Hx Hy. rewrite land_1_of_bit by done.
  apply i2l_uint8. by apply set_lsb_uint8.
Qed.

(** What [extract] computes at one pixel. *)
Lemma extract_pixel_value (x : Z) : i2l (Z.land x 0x1 * 0x01) = Z.land x 0x1.
Proof.
  rewrite Z.mul_1_r. apply i2l_uint8.
  destruct (land_1_bit x) as [-> | ->]; unfold uint8; lia.
Qed.

(** ** The channel cipher: [embed] and [extract] *)

Lemma length_embed (a b : list Z) :
  length (embed a b) = (length a `min` length b)%nat.
Proof. apply length_zip_with. Qed.

Lemma embed_lookup (a b : list Z) (i : nat) (x y : Z) :
  Forall uint8 a → Forall is_bit b →
  a !! i = Some x → b !! i = Some y →
  embed a b !! i = Some (Z.lor (Z.land x 0xFE) y).
Proof.
  intros Ha Hb Hx Hy. unfold embed.
  rewrite lookup_zip_with, Hx, Hy. simpl. f_equal.
  apply embed_pixel_value.
  - eapply Forall_lookup_1; eauto.
  - eapply Forall_lookup_1; eauto.
Qed.

Lemma embed_uint8 (a b : list Z) :
  Forall uint8 a → Forall is_bit b → Forall uint8 (embed a b).
Proof.
  intros Ha Hb. apply Forall_lookup. intros i v Hv.
  unfold embed in Hv. apply lookup_zip_with_Some in Hv as (x & y & -> & Hx & Hy).
  rewrite embed_pixel_value.
  - apply set_lsb_uint8; eapply Forall_lookup_1; eauto.
  - eapply Forall_lookup_1; eauto.
  - eapply Forall_lookup_1; eauto.
Qed.

Lemma extract_embed (a b : list Z) :
  Forall uint8 a → Forall is_bit b → length a = length b →
  extract (embed a b) = b.
Proof.
  intros Ha Hb Hlen. apply list_eq. intros i. unfold extract.
  rewrite !list_lookup_fmap.
  destruct (b !! i) as [y|] eqn:Hy.
  - destruct (lookup_lt_is_Some_2 a i) as [x Hx].
    { rewrite Hlen. by eapply lookup_lt_Some. }
    rewrite (embed_lookup a b i x y) by done. simpl. f_equal.
    rewrite extract_pixel_value. apply set_lsb_low.
    + eapply Forall_lookup_1; eauto.
    + eapply Forall_lookup_1; eauto.
  - rewrite (lookup_ge_None_2 (embed a b) i); [done|].
    rewrite length_embed. apply lookup_ge_None_1 in Hy. lia.
Qed.

(** The decoder's three steps on the red band are [extract]. *)
Lemma getdata_extract (a : image) :
  getdata (convert_L (eval_lsb a)) = extract (getdata a).
Proof. reflexivity. Qed.

(** ** Packing and unpacking bits *)

Lemma byte_of_Z_of_byte (b : byte) : byte_of_Z (Z_of_byte b) = b.
Proof.
  unfold byte_of_Z, Z_of_byte. by rewrite N2Z.id, Byte.of_to_N.
Qed.

Lemma unpack8_bits (v : Z) : Forall is_bit (unpack8 v).
Proof.
  unfold unpack8. apply Forall_fmap, Forall_true. intros k. simpl.
  unfold is_bit. destruct (Z.testbit v k); simpl; auto.
Qed.

Lemma length_unpack8 (v : Z) : length (unpack8 v) = 8%nat.
Proof. reflexivity. Qed.

Lemma unpackbits_cons (v : Z) (arr : list Z) :
  unpackbits (v :: arr) = unpack8 v ++ unpackbits arr.
Proof. reflexivity. Qed.

Lemma unpackbits_bits (arr : list Z) : Forall is_bit (unpackbits arr).
Proof.
  induction arr as [|v arr IH]; [constructor|].
  rewrite unpackbits_cons, Forall_app. split; [apply unpack8_bits | exact IH].
Qed.

Lemma length_unpackbits (arr : list Z) :
  length (unpackbits arr) = (8 * length arr)%nat.
Proof.
  induction arr as [|v arr IH]; [done|].
  rewrite unpackbits_cons, length_app, length_unpack8, IH. simpl. lia.
Qed.

(** Eight unpacked bits pack into the byte they came from. *)
Lemma packbits_unpack8 (b : byte) (bits : list Z) :
  packbits (unpack8 (Z_of_byte b) ++ bits) = Z_of_byte b :: packbits bits.
Proof. destruct b; reflexivity. Qed.

Lemma packbits_unpackbits (data : list byte) (bits : list Z) :
  to_bytes (packbits (unpackbits (fromiter data) ++ bits))
  = data ++ to_bytes (packbits bits).
Proof.
  induction data as [|b data IH]; [done|].
  change (fromiter (b :: data)) with (Z_of_byte b :: fromiter data).
  rewrite unpackbits_cons, <- app_assoc, packbits_unpack8.
  change (to_bytes (?v :: ?l)) with (byte_of_Z v :: to_bytes l).
  by rewrite byte_of_Z_of_byte, IH.
Qed.

(** ** The processors on a three-band image *)

Lemma merge_RGB (size : nat * nat) (r g b : list Z) :
  merge "RGB" [Image "L" size [r]; Image "L" size [g]; Image "L" size [b]]
  = Returns (Image "RGB" size [r; g; b]).
Proof.
  unfold merge. rewrite decide_False by (compute; lia).
  rewrite decide_True; [done|]. by repeat constructor.
Qed.

Section processors_facts.
Context {obj : Type} `{!Pickle obj}.

Lemma payload_bits_bits data size : Forall is_bit (payload_bits data size).
Proof.
  unfold payload_bits. rewrite Forall_app. split.
  - apply unpackbits_bits.
  - apply Forall_replicate. by left.
Qed.

Lemma length_payload_bits data size :
  (npixels size ≤ length (payload_bits data size))%nat.
Proof. unfold payload_bits. rewrite length_app, length_replicate. lia. Qed.

(** On three bands and at least one pixel the encoder succeeds, whatever
    the payload. *)
Lemma lsb_encode_3 (data : obj) mode size (r g b : list Z) :
  (0 < npixels size)%nat →
  lsb_encode data (Image mode size [r; g; b])
  = Returns (Image "RGB" size
               [embed r (take (npixels size) (payload_bits data size)); g; b]).
Proof.
  intros Hpos. unfold lsb_encode. simpl im_size.
  change (unpackbits (fromiter (dump data)) ++ _)
    with (payload_bits data size).
  unfold frombytes.
  rewrite (decide_False (P := npixels size = 0%nat)) by lia.
  rewrite decide_False by (pose proof (length_payload_bits data size); lia).
  apply merge_RGB.
Qed.

(** An image without pixels is refused by [Image.frombytes], before the
    bands are looked at. *)
Lemma lsb_encode_no_pixels (data : obj) (im : image) :
  npixels (im_size im) = 0%nat → lsb_encode data im = Raises ValueError.
Proof.
  intros Hzero. unfold lsb_encode, frombytes. by rewrite decide_True.
Qed.

(** Whatever [lsb_encode] returns, it made of an image with pixels. *)
Lemma lsb_encode_Returns_pixels (data : obj) (im im' : image) :
  lsb_encode data im = Returns im' → (0 < npixels (im_size im))%nat.
Proof.
  intros Hret. destruct (decide (npixels (im_size im) = 0%nat)) as [Hz|Hz]; [|lia].
  by rewrite lsb_encode_no_pixels in Hret.
Qed.

(** A pickle that fits occupies at least eight pixels. *)
Lemma fit_pixels (data : obj) (n : nat) :
  (length (dump data) * 8 ≤ n)%nat → (0 < n)%nat.
Proof.
  pose proof (dump_nonempty data) as Hne.
  destruct (dump data); [done|]. simpl. lia.
Qed.

Lemma lsb_decode_3 mode size (r g b : list Z) :
  lsb_decode (Image mode size [r; g; b])
  = try_except (load (to_bytes (packbits (extract r))))
      UnpicklingError empty_str.
Proof. reflexivity. Qed.

(** With any other number of bands the unpacking of [image.split()]
    fails. *)
Lemma unpack3_split_other (im : image) :
  length (im_bands im) ≠ 3%nat → unpack3 (split im) = Raises ValueError.
Proof.
  unfold split. destruct (im_bands im) as [|r [|g [|b [|a l]]]]; done.
Qed.

End processors_facts.

Lemma rgb_image_inv (im : image) :
  rgb_image im →
  ∃ r g b, im = Image "RGB" (im_size im) [r; g; b]
    ∧ channel (npixels (im_size im)) r
    ∧ channel (npixels (im_size im)) g
    ∧ channel (npixels (im_size im)) b.
Proof.
  destruct im as [mode size bands]. unfold rgb_image, wf_image. simpl.
  intros (-> & Hlen & Hwf).
  destruct bands as [|r [|g [|b [|a l]]]]; try done.
  exists r, g, b. split; [done|].
  by repeat match goal with H : Forall _ (_ :: _) |- _ => inversion_clear H end.
Qed.

(** ** The pickle fragment reads back what it writes *)

Import PickleFragment.

Lemma Z_of_byte_of_Z (v : Z) : uint8 v → Z_of_byte (byte_of_Z v) = v.
Proof. intros Hv. by_uint8_cases v Hv. Qed.

Lemma length_le_pack (n : nat) (v : Z) : length (le_pack n v) = n.
Proof. revert v. induction n as [|n IH]; intros v; simpl; [done|]. by rewrite IH. Qed.

Lemma le_value_pack (n : nat) (v : Z) :
  0 ≤ v < 256 ^ Z.of_nat n → le_value (le_pack n v) = v.
Proof.
  revert v. induction n as [|n IH]; intros v Hv.
  - simpl in *. lia.
  - rewrite Nat2Z.inj_succ, Z.pow_succ_r in Hv by lia.
    cbn [le_pack le_value foldr]. fold (le_value (le_pack n (v `div` 256))).
    rewrite IH, Z_of_byte_of_Z.
    + pose proof (Z.div_mod v 256). lia.
    + pose proof (Z.mod_pos_bound v 256). unfold uint8. lia.
    + split; [apply Z.div_pos; lia | apply Z.div_lt_upper_bound; lia].
Qed.

Lemma read_app (pre post : list byte) (n : Z) :
  n = Z.of_nat (length pre) → read n (pre ++ post) = Returns (pre, post).
Proof.
  intros ->. unfold read.
  rewrite decide_True by (rewrite length_app; lia).
  by rewrite Nat2Z.id, take_app_length, drop_app_length.
Qed.

Lemma read_1 (b : byte) (input : list byte) :
  read 1 (b :: input) = Returns ([b], input).
Proof. by apply (read_app [b]). Qed.

Lemma read_enough (input : list byte) (n : Z) :
  0 ≤ n ≤ Z.of_nat (length input) →
  ∃ pre post, read n input = Returns (pre, post).
Proof. intros Hn. unfold read. rewrite decide_True by lia. eauto. Qed.

(** One round of the unpickler for each opcode of the fragment. *)
Lemma run_STOP fuel v stack input :
  run (S fuel) (v :: stack) (STOP :: input) = Returns v.
Proof. reflexivity. Qed.

Lemma run_NONE fuel stack input :
  run (S fuel) stack (NONE :: input) = run fuel (PyNone :: stack) input.
Proof. reflexivity. Qed.

Lemma run_MEMOIZE fuel v stack input :
  run (S fuel) (v :: stack) (MEMOIZE :: input)
  = run fuel (v :: stack) input.
Proof. reflexivity. Qed.

Lemma run_PROTO fuel stack input :
  run (S fuel) stack (PROTO :: "004"%byte :: input) = run fuel stack input.
Proof.
  cbn [run]. do 2 rewrite decide_False by done. rewrite decide_True by done.
  rewrite read_1. reflexivity.
Qed.

Lemma run_FRAME fuel stack frame input :
  length frame = 8%nat →
  0 ≤ le_value frame ≤ Z.of_nat (length input) →
  le_value frame < 2 ^ 63 →
  run (S fuel) stack (FRAME :: frame ++ input) = run fuel stack input.
Proof.
  intros Hlen Hin Hsmall. cbn [run].
  do 3 rewrite decide_False by done. rewrite decide_True by done.
  rewrite (read_app frame) by (by rewrite Hlen). cbn [mbind outcome_bind].
  rewrite decide_False by lia.
  destruct (read_enough input (le_value frame)) as (pre & post & ->); done.
Qed.

Lemma run_SHORT_BINUNICODE fuel stack s input :
  (length s ≤ 255)%nat → forallb is_ascii s = true →
  run (S fuel) stack
    (SHORT_BINUNICODE :: byte_of_Z (Z.of_nat (length s)) :: s ++ input)
  = run fuel (PyStr s :: stack) input.
Proof.
  intros Hlen Hascii. cbn [run].
  do 4 rewrite decide_False by done. rewrite decide_True by done.
  rewrite read_1. cbn [mbind outcome_bind].
  assert (le_value [byte_of_Z (Z.of_nat (length s))] = Z.of_nat (length s))
    as ->.
  { cbn [le_value foldr]. rewrite Z_of_byte_of_Z by (unfold uint8; lia). lia. }
  rewrite (read_app s) by done. cbn [mbind outcome_bind].
  by rewrite Hascii.
Qed.

(** [load] returns the pickled value and ignores what follows the pickle. *)
Lemma loads_dumps (o : pyobj) (rest : list byte) :
  in_fragment o → loads (dumps o ++ rest) = Returns o.
Proof.
  destruct o as [|s].
  { intros _. unfold loads, dumps. cbn [app length].
    by rewrite run_PROTO, run_NONE, run_STOP. }
  intros [Hlen Hascii]. unfold loads, dumps.
  set (body := [SHORT_BINUNICODE; byte_of_Z (Z.of_nat (length s))] ++ s
                 ++ [MEMOIZE; STOP]).
  set (frame := le_pack 8 (Z.of_nat (length body))).
  assert (length body = (length s + 4)%nat) as Hbody.
  { unfold body. rewrite !length_app. simpl. lia. }
  assert (le_value frame = Z.of_nat (length body)) as Hframe.
  { apply le_value_pack. rewrite Hbody.
    change (256 ^ Z.of_nat 8) with (2 ^ 64). lia. }
  replace (S (length (([PROTO; "004"%byte; FRAME] ++ frame ++ body) ++ rest)))
    with (S (S (S (S (S (length frame + length s + 3 + length rest))))))
    by (rewrite !length_app, Hbody; simpl; lia).
  rewrite <- !app_assoc. cbn [app].
  rewrite run_PROTO, run_FRAME.
  - unfold body. rewrite <- !app_assoc. cbn [app].
    rewrite run_SHORT_BINUNICODE by done.
    by rewrite run_MEMOIZE, run_STOP.
  - apply length_le_pack.
  - rewrite Hframe, length_app. lia.
  - rewrite Hframe, Hbody. lia.
Qed.

(** The fragment on inputs CPython was run on: the pickles of ['hi'] and
    of [None], and what [pickle.load] raises on broken input. *)
Example dumps_hi :
  dumps (str "hi")
  = [PROTO; "004"; FRAME; "006"; "000"; "000"; "000"; "000"; "000"; "000";
     "000"; SHORT_BINUNICODE; "002"; "h"; "i"; MEMOIZE; STOP]%byte.
Proof. reflexivity. Qed.

Example loads_broken_input :
  loads [] = Raises EOFError
  ∧ loads [NONE] = Raises EOFError
  ∧ loads ["000"%byte] = Raises UnpicklingError
  ∧ loads ["255"%byte] = Raises UnpicklingError
  ∧ loads [STOP] = Raises UnpicklingError
  ∧ loads [MEMOIZE] = Raises UnpicklingError
  ∧ loads [PROTO] = Raises UnpicklingError
  ∧ loads [PROTO; "255"%byte] = Raises ValueError
  ∧ loads [SHORT_BINUNICODE; "005"; "h"; "i"]%byte = Raises UnpicklingError
  ∧ loads [PROTO; "004"; NONE; STOP; "000"; "000"]%byte = Returns PyNone.
Proof. repeat split. Qed.

(** ** The claims on the LSB processors *)

(** C4. On an 8-bit channel of W*H pixels and W*H bits, [embed] gives W*H
    pixels, and pixel [i], in raster order, is [(channel[i] & 0xFE) | bits[i]]. *)
Theorem embed_pixelwise (size : nat * nat) (ch bits : list Z) :
  channel (npixels size) ch →
  length bits = npixels size →
  Forall is_bit bits →
  length (embed ch bits) = npixels size
  ∧ ∀ (i : nat) (x b : Z),
      ch !! i = Some x → bits !! i = Some b →
      embed ch bits !! i = Some (Z.lor (Z.land x 0xFE) b).
Proof.
  intros [Hlen Hch] Hbits Hbit. split.
  - rewrite length_embed. lia.
  - intros i x b Hx Hb. by apply embed_lookup.
Qed.

Lemma embed_pixelwise_witness :
  embed [10; 11; 254; 255] [1; 0; 1; 0] !! 2%nat = Some 255.
Proof.
  refine (proj2 (embed_pixelwise (2, 2)%nat [10; 11; 254; 255] [1; 0; 1; 0] _ _ _)
            2%nat 254 1 _ _).
  - apply (bool_decide_unpack _). vm_compute. exact I.
  - reflexivity.
  - apply (bool_decide_unpack _). vm_compute. exact I.
  - reflexivity.
  - reflexivity.
Defined.

(** C5. Reading the low bits of an embedded channel gives back the bits:
    [extract (embed channel bits) = bits] for W*H bits on W*H 8-bit pixels. *)
Theorem extract_embed_id (size : nat * nat) (ch bits : list Z) :
  channel (npixels size) ch →
  length bits = npixels size →
  Forall is_bit bits →
  extract (embed ch bits) = bits.
Proof.
  intros [Hlen Hch] Hbits Hbit. apply extract_embed; [done..|lia].
Qed.

Lemma extract_embed_id_witness :
  extract (embed [10; 11; 254; 255] [1; 0; 1; 0]) = [1; 0; 1; 0].
Proof.
  apply (extract_embed_id (2, 2)%nat).
  - apply (bool_decide_unpack _). vm_compute. exact I.
  - reflexivity.
  - apply (bool_decide_unpack _). vm_compute. exact I.
Defined.

Section lsb_claims.
Context {obj : Type} `{!Pickle obj}.

(** C1. Round trip: on an RGB image of W x H pixels, a payload whose pickle
    has B bytes with B*8 <= W*H is returned by [lsb_decode] from the image
    [lsb_encode] made. The payload is one that pickle reads back: [load]
    returns it from its pickle and does not look at the bytes after it. *)
Theorem lsb_roundtrip (data : obj) (im : image) :
  rgb_image im →
  (∀ rest, load (dump data ++ rest) = Returns data) →
  (length (dump data) * 8 ≤ npixels (im_size im))%nat →
  lsb_encode data im ≫= lsb_decode = Returns data.
Proof.
  intros Him Hload Hfit.
  destruct (rgb_image_inv im Him) as (r & g & b & -> & [Hr Hr8] & _ & _).
  simpl in Hfit, Hr. set (size := im_size _) in *.
  rewrite lsb_encode_3 by (by eapply fit_pixels).
  cbn [mbind outcome_bind]. rewrite lsb_decode_3.
  assert (length (payload_bits data size) = npixels size) as Hlen.
  { unfold payload_bits. cbn zeta.
    rewrite length_app, length_replicate, length_unpackbits.
    unfold fromiter. rewrite length_fmap. lia. }
  rewrite take_ge by lia.
  rewrite extract_embed
    by (done || apply payload_bits_bits || (rewrite Hlen; done)).
  unfold payload_bits. cbn zeta. rewrite packbits_unpackbits, Hload.
  reflexivity.
Qed.

(** C3. On an RGB image [lsb_encode] returns an image of the same mode and
    size whose green and blue bands are those of the input and whose red
    band differs from the input's in no bit but the lowest. The image has
    at least one pixel, W >= 1 and H >= 1: one without pixels is refused by
    [Image.frombytes] with a [ValueError]. *)
Theorem lsb_encode_frame (data : obj) (im : image) :
  rgb_image im →
  (0 < npixels (im_size im))%nat →
  ∃ im', lsb_encode data im = Returns im'
    ∧ im_mode im' = im_mode im
    ∧ im_size im' = im_size im
    ∧ length (im_bands im') = length (im_bands im)
    ∧ (∀ k : nat, k ≠ 0%nat → im_bands im' !! k = im_bands im !! k)
    ∧ (∀ red red' : list Z,
         im_bands im !! 0%nat = Some red →
         im_bands im' !! 0%nat = Some red' →
         length red' = length red
         ∧ ∀ (i : nat) (x x' : Z),
             red !! i = Some x → red' !! i = Some x' →
             ∀ n : Z, n ≠ 0 → Z.testbit x' n = Z.testbit x n).
Proof.
  intros Him Hpos.
  destruct (rgb_image_inv im Him) as (r & g & b & -> & [Hr Hr8] & _ & _).
  simpl in Hr, Hpos. set (size := im_size _) in *.
  eexists. split; [by apply lsb_encode_3|]. simpl.
  split; [done|]. split; [done|]. split; [done|]. split.
  { intros [|k] Hk; done. }
  intros red red' [= <-] [= <-].
  pose proof (payload_bits_bits data size) as Hbits.
  pose proof (length_payload_bits data size) as Hlen.
  set (bits := take (npixels size) (payload_bits data size)).
  assert (Forall is_bit bits) as Hbit by (by apply Forall_take).
  assert (length bits = npixels size) as Hlb
    by (unfold bits; rewrite length_take; lia).
  split; [rewrite length_embed; lia|].
  intros i x x' Hx Hx' n Hn.
  destruct (lookup_lt_is_Some_2 bits i) as [y Hy].
  { rewrite Hlb, <- Hr. by eapply lookup_lt_Some. }
  rewrite (embed_lookup r bits i x y) in Hx' by done.
  injection Hx' as <-. apply set_lsb_high; [| |done].
  - eapply Forall_lookup_1; eauto.
  - eapply Forall_lookup_1; eauto.
Qed.

(** C6. A payload of B bytes with B*8 > W*H does not make [lsb_encode]
    fail: it returns an image of the same size whose red band has W*H
    pixels, and their low bits are the first W*H bits of the pickle. The
    image has at least one pixel, W >= 1 and H >= 1: one without pixels is
    refused by [Image.frombytes] with a [ValueError], whatever the
    payload. *)
Theorem lsb_encode_truncates (data : obj) (im : image) :
  rgb_image im →
  (0 < npixels (im_size im))%nat →
  (npixels (im_size im) < length (dump data) * 8)%nat →
  ∃ (im' : image) (red' : list Z),
    lsb_encode data im = Returns im'
    ∧ im_size im' = im_size im
    ∧ im_bands im' !! 0%nat = Some red'
    ∧ length red' = npixels (im_size im)
    ∧ extract red'
      = take (npixels (im_size im)) (unpackbits (fromiter (dump data))).
Proof.
  intros Him Hpos Hbig.
  destruct (rgb_image_inv im Him) as (r & g & b & -> & [Hr Hr8] & _ & _).
  simpl in Hr, Hpos, Hbig. set (size := im_size _) in *.
  do 2 eexists. split; [by apply lsb_encode_3|]. simpl.
  split; [done|]. split; [done|].
  assert (npixels size < length (unpackbits (fromiter (dump data))))%nat as Hlt.
  { rewrite length_unpackbits. unfold fromiter. rewrite length_fmap. lia. }
  assert (take (npixels size) (payload_bits data size)
          = take (npixels size) (unpackbits (fromiter (dump data)))) as ->.
  { unfold payload_bits. cbn zeta. apply take_app_le. lia. }
  split; [rewrite length_embed, length_take; lia|].
  apply extract_embed; [done| |rewrite length_take; lia].
  apply Forall_take, unpackbits_bits.
Qed.

(** C10. An image that does not split into exactly three bands makes the
    unpacking [red, green, blue = image.split()] raise a [ValueError], in
    [lsb_encode] and in [lsb_decode]; the handler of [lsb_decode] catches
    [UnpicklingError] only, so its caller gets the [ValueError] and not
    the empty string. *)
Theorem lsb_needs_three_bands (data : obj) (im : image) :
  length (im_bands im) ≠ 3%nat →
  lsb_encode data im = Raises ValueError
  ∧ lsb_decode im = Raises ValueError
  ∧ lsb_decode im ≠ Returns empty_str.
Proof.
  intros Hbands. assert (lsb_decode im = Raises ValueError) as Hdec.
  { unfold lsb_decode. by rewrite unpack3_split_other. }
  split; [|by rewrite Hdec].
  destruct (decide (npixels (im_size im) = 0%nat)) as [Hzero|Hpos];
    [by apply lsb_encode_no_pixels|].
  unfold lsb_encode, frombytes.
  rewrite (decide_False (P := npixels (im_size im) = 0%nat)) by done.
  rewrite decide_False; [by rewrite (unpack3_split_other im)|].
  rewrite length_app, length_replicate. lia.
Qed.

(** Whatever [load] raises other than [UnpicklingError] reaches the caller
    of [lsb_decode]. *)
Lemma lsb_decode_propagates (im : image) (r g b : list Z) (e : exn) :
  im_bands im = [r; g; b] →
  load (to_bytes (packbits (extract r))) = Raises e →
  e ≠ UnpicklingError →
  lsb_decode im = Raises e.
Proof.
  destruct im as [mode size bands]. simpl. intros -> Hload He.
  rewrite lsb_decode_3, Hload. unfold try_except. by rewrite decide_False.
Qed.

(** An [UnpicklingError] of [load] becomes the empty string. *)
Lemma lsb_decode_fallback (im : image) (r g b : list Z) :
  im_bands im = [r; g; b] →
  load (to_bytes (packbits (extract r))) = Raises UnpicklingError →
  lsb_decode im = Returns empty_str.
Proof.
  destruct im as [mode size bands]. simpl. intros -> Hload.
  by rewrite lsb_decode_3, Hload.
Qed.

End lsb_claims.

Lemma lsb_roundtrip_witness :
  HiddenWatermarkProcessor_process plain_image ≫= lsb_decode
  = Returns (str "django-watermark-images").
Proof.
  apply lsb_roundtrip.
  - apply (bool_decide_unpack _). vm_compute. exact I.
  - intros rest. apply loads_dumps. split; [vm_compute; lia | reflexivity].
  - vm_compute. lia.
Defined.

Lemma lsb_encode_frame_witness :
  ∃ im', lsb_encode (str "hi") tiny_image = Returns im'
    ∧ im_bands im' !! 1%nat = im_bands tiny_image !! 1%nat.
Proof.
  destruct (lsb_encode_frame (str "hi") tiny_image) as (im' & Hret & _ & _ & _ & Hgb & _).
  - apply (bool_decide_unpack _). vm_compute. exact I.
  - vm_compute. lia.
  - exists im'. split; [exact Hret | by apply Hgb].
Defined.

Lemma lsb_encode_truncates_witness :
  ∃ im', lsb_encode (str "hi") tiny_image = Returns im'
    ∧ im_size im' = (4, 4)%nat.
Proof.
  destruct (lsb_encode_truncates (str "hi") tiny_image) as (im' & red' & Hret & Hsize & _).
  - apply (bool_decide_unpack _). vm_compute. exact I.
  - vm_compute. lia.
  - vm_compute. lia.
  - exists im'. split; [exact Hret | exact Hsize].
Defined.

Lemma lsb_needs_three_bands_witness :
  lsb_decode (obj := pyobj) rgba_pixel = Raises ValueError.
Proof.
  refine (proj1 (proj2 (lsb_needs_three_bands PyNone rgba_pixel _))).
  vm_compute. lia.
Defined.

(** C2. The red low bits of [unfinished_pickle_image] spell the byte [N]:
    [load] runs out of input and raises [EOFError], which the handler of
    [lsb_decode] does not catch. *)
Theorem lsb_decode_unfinished_pickle :
  rgb_image unfinished_pickle_image
  ∧ lsb_decode (obj := pyobj) unfinished_pickle_image = Raises EOFError.
Proof.
  split; [|reflexivity].
  apply (bool_decide_unpack _). vm_compute. exact I.
Qed.

(** An RGB image of width 0 has three bands and no pixel: [Image.frombytes]
    refuses its size. *)
Example lsb_encode_empty_image :
  rgb_image (new "RGB" (0, 5)%nat [1; 2; 3])
  ∧ lsb_encode (str "hi") (new "RGB" (0, 5)%nat [1; 2; 3]) = Raises ValueError.
Proof.
  split; [|reflexivity].
  apply (bool_decide_unpack _). vm_compute. exact I.
Qed.

(** An image without a payload may still decode to the empty string: with
    all red values even the first byte is 0x00, which is no opcode. *)
Example lsb_decode_even_reds :
  lsb_decode (obj := pyobj) (new "RGB" (4, 4)%nat [254; 7; 7]) = Returns (PyStr []).
Proof. reflexivity. Qed.

(** ** The alpha mask *)

Lemma rgb2l_uint8 (r g b : Z) :
  uint8 r → uint8 g → uint8 b → uint8 (rgb2l r g b).
Proof.
  unfold uint8, rgb2l. intros Hr Hg Hb.
  rewrite Z.shiftr_div_pow2 by lia. change (2 ^ 16) with 65536.
  split.
  - apply Z.div_pos; lia.
  - apply Z.div_lt_upper_bound; lia.
Qed.

(** The table of [point] at an 8-bit pixel. *)
Lemma point_table (f : Z → Z) (v : Z) :
  uint8 v →
  ((λ i, i2l (f i)) <$> seqZ 0 256) !! Z.to_nat v = Some (i2l (f v)).
Proof.
  intros Hv. unfold uint8 in Hv.
  rewrite list_lookup_fmap, lookup_seqZ_lt by lia.
  rewrite Z2Nat.id, Z.add_0_l by lia. reflexivity.
Qed.

Lemma cap_pixel (v : Z) : uint8 v → i2l (Z.min v 90) = Z.min v 90.
Proof. intros Hv. apply i2l_uint8. unfold uint8 in *. lia. Qed.

Lemma convert_rgb_L_4 mode size (r g b a : list Z) :
  getdata (convert_rgb_L (Image mode size [r; g; b; a]))
  = zip_with (λ f b, f b) (zip_with rgb2l r g) b.
Proof. reflexivity. Qed.

Lemma luminance_uint8 (r g b : list Z) :
  Forall uint8 r → Forall uint8 g → Forall uint8 b →
  Forall uint8 (zip_with (λ f b, f b) (zip_with rgb2l r g) b).
Proof.
  intros Hr Hg Hb. apply Forall_lookup. intros i v Hv.
  apply lookup_zip_with_Some in Hv as (f & z & -> & Hf & Hz).
  apply lookup_zip_with_Some in Hf as (x & y & -> & Hx & Hy).
  apply rgb2l_uint8.
  - exact (Forall_lookup_1 _ _ _ _ Hr Hx).
  - exact (Forall_lookup_1 _ _ _ _ Hg Hy).
  - exact (Forall_lookup_1 _ _ _ _ Hb Hz).
Qed.

Lemma watermark_mask_4 mode size (r g b a : list Z) :
  getdata (rgba_watermark_mask (Image mode size [r; g; b; a]))
  = (λ v, default 0 (((λ i, i2l (Z.min i 90)) <$> seqZ 0 256) !! Z.to_nat v))
      <$> zip_with (λ f b, f b) (zip_with rgb2l r g) b.
Proof. reflexivity. Qed.

(** C8. Every pixel of the mask [add_watermark] builds is at most 90, and
    a pixel of the mask's source (the luminance of the resized watermark)
    that is not above 90 is the mask's pixel. *)
Theorem watermark_mask_capped (rgba_watermark : image) :
  rgba_image rgba_watermark →
  let source := getdata (convert_rgb_L rgba_watermark) in
  let mask := getdata (rgba_watermark_mask rgba_watermark) in
  length mask = npixels (im_size rgba_watermark)
  ∧ Forall (λ v, 0 ≤ v ≤ 90) mask
  ∧ ∀ (i : nat) (v : Z), source !! i = Some v → v ≤ 90 → mask !! i = Some v.
Proof.
  destruct rgba_watermark as [mode size bands].
  unfold rgba_image, wf_image. simpl. intros (-> & Hlen & Hwf).
  destruct bands as [|r [|g [|b [|a [|? ?]]]]]; try done.
  repeat match goal with H : Forall _ (_ :: _) |- _ => inversion_clear H end.
  repeat match goal with H : channel _ _ |- _ => destruct H end.
  rewrite watermark_mask_4, convert_rgb_L_4.
  set (lum := zip_with _ _ b).
  assert (Forall uint8 lum) as Hlum by (by apply luminance_uint8).
  assert (length lum = npixels size) as Hlumlen
    by (unfold lum; rewrite !length_zip_with; lia).
  split; [by rewrite length_fmap|]. split.
  - apply Forall_fmap. eapply Forall_impl; [exact Hlum|].
    intros v Hv. unfold compose.
    rewrite (point_table (λ x, Z.min x 90)) by done.
    rewrite cap_pixel by done. cbn [from_option id].
    unfold uint8 in Hv. lia.
  - intros i v Hi Hv. rewrite list_lookup_fmap, Hi.
    assert (uint8 v) as Hv8 by exact (Forall_lookup_1 _ _ _ _ Hlum Hi).
    cbn [fmap option_fmap option_map].
    rewrite (point_table (λ x, Z.min x 90)) by done.
    rewrite cap_pixel by done. cbn [from_option id]. f_equal. lia.
Qed.

Lemma watermark_mask_capped_witness :
  getdata (rgba_watermark_mask rgba_pixel) !! 0%nat = Some 2.
Proof.
  refine (proj2 (proj2 (watermark_mask_capped rgba_pixel _)) 0%nat 2 _ _).
  - apply (bool_decide_unpack _). vm_compute. exact I.
  - reflexivity.
  - lia.
Defined.

(** [putalpha] makes the mask the alpha band of the watermark. *)
Lemma putalpha_alpha (im mask : image) :
  length (im_bands im) = 4%nat →
  im_bands (putalpha im mask) !! 3%nat = Some (getdata mask).
Proof.
  intros Hlen. unfold putalpha. simpl.
  apply list_lookup_insert_eq. lia.
Qed.

(** ** Exact arithmetic obeys the order laws *)

Lemma exact_fle (x y : Q) : fle x y = true ↔ (x <= y)%Q.
Proof. apply Qle_bool_iff. Qed.

Lemma exact_is_zero_false (d : Q) :
  (0 <= d)%Q → is_zero d = false → (0 < d)%Q.
Proof.
  intros Hd Hz. unfold is_zero in Hz. apply andb_false_iff in Hz.
  destruct Hz as [Hz | Hz].
  - apply Qnot_le_lt. intros Hle. apply exact_fle in Hle.
    change (float_of_int 0) with 0%Q in Hz. congruence.
  - apply exact_fle in Hd. change (float_of_int 0) with 0%Q in Hz. congruence.
Qed.

Lemma exact_truncate_mono (x y : Q) (m n : Z) :
  (x <= y)%Q →
  Exact.to_int x = Returns m → Exact.to_int y = Returns n → m ≤ n.
Proof.
  unfold Exact.to_int. intros Hxy [= <-] [= <-].
  destruct (Qle_bool 0 x) eqn:Hx, (Qle_bool 0 y) eqn:Hy.
  - by apply Qfloor_resp_le.
  - apply Qle_bool_iff in Hx. exfalso.
    assert (Qle_bool 0 y = true); [|congruence].
    apply Qle_bool_iff. by eapply Qle_trans.
  - apply Qle_bool_iff in Hy.
    assert (Qceiling x ≤ 0).
    { rewrite <- (Qceiling_Z 0). apply Qceiling_resp_le, Qlt_le_weak, Qnot_le_lt.
      intros H0. apply Qle_bool_iff in H0. change (inject_Z 0) with 0%Q in H0.
      congruence. }
    assert (0 ≤ Qfloor y).
    { rewrite <- (Qfloor_Z 0). by apply Qfloor_resp_le. }
    lia.
  - by apply Qceiling_resp_le.
Qed.

#[global] Instance exact_laws : PyFloatLaws Q.
Proof.
  split.
  - intros a b c Hab Hbc. apply exact_fle.
    apply exact_fle in Hab, Hbc. by eapply Qle_trans.
  - intros a b _. split; apply exact_fle, Qle_refl.
  - intros a b Hlt. apply exact_fle, Qlt_le_weak, Qnot_le_lt.
    intros Hle. apply Qle_bool_iff in Hle. simpl in Hlt.
    rewrite Hle in Hlt. discriminate.
  - intros m n _ Hmn _. apply exact_fle. simpl. by rewrite <- Zle_Qle.
  - intros n Hn _. unfold is_zero. apply andb_false_iff. left.
    apply not_true_is_false. intros Hle. apply exact_fle in Hle.
    simpl in Hle. rewrite <- Zle_Qle in Hle. lia.
  - intros a b _. split; apply exact_fle, Qle_refl.
  - intros a b _. split; apply exact_fle, Qle_refl.
  - intros a b c d Ha Hab Hc Hcd _ _. apply exact_fle.
    apply exact_fle in Ha, Hab, Hc, Hcd. simpl.
    by apply Qmult_le_compat_nonneg.
  - intros a b Ha Hb _. apply exact_fle. apply exact_fle in Ha, Hb.
    simpl. by apply Qmult_le_0_compat.
  - intros a b c d Ha Hab Hd Hdz Hdc _ _. apply exact_fle.
    apply exact_fle in Ha, Hab, Hd, Hdc.
    pose proof (exact_is_zero_false d Hd Hdz) as Hd0.
    assert (0 < c)%Q as Hc0 by (by eapply Qlt_le_trans).
    simpl. apply Qle_shift_div_r; [done|].
    apply Qle_trans with b; [done|].
    apply Qle_trans with (b / d * d)%Q.
    + apply Qle_lteq. right. field.
      intros Heq. rewrite Heq in Hd0. by apply Qlt_irrefl in Hd0.
    + assert (0 <= b / d)%Q.
      { apply Qle_shift_div_l; [done|]. rewrite Qmult_0_l.
        apply Qle_trans with a; [exact Ha | exact Hab]. }
      rewrite !(Qmult_comm (b / d)). by apply Qmult_le_compat_r.
  - intros a d Ha Hd Hdz _. apply exact_fle. apply exact_fle in Ha, Hd.
    pose proof (exact_is_zero_false d Hd Hdz) as Hd0.
    simpl. apply Qle_shift_div_l; [done|]. rewrite Qmult_0_l. exact Ha.
  - intros a n _. apply exact_fle, Qle_refl.
  - intros a b m n Hab. apply exact_fle in Hab. by apply exact_truncate_mono.
  - intros a n Ha. apply exact_fle in Ha. simpl. unfold Exact.to_int.
    apply Qle_bool_iff in Ha as Ha'. simpl in Ha'.
    change (inject_Z 0) with 0%Q in Ha'. rewrite Ha'. intros [= <-].
    rewrite <- (Qfloor_Z 0). by apply Qfloor_resp_le.
Qed.

(** ** The watermark fitter *)

Section fitter_facts.
Context {F : Type} `{!PyFloat F}.

(** What a returned size says about the run: no divisor was zero, and the
    two dimensions are [int] of the two products. *)
Lemma new_size_returns (Wb Hb Wo Ho x y : Z) :
  new_size (Wb, Hb) (Wo, Ho) = Returns (x, y) →
  zero_divisor Wb Hb Wo Ho = false
  ∧ int_of_float (fmul (float_of_int Wo) (watermarkScale Wb Hb Wo Ho))
    = Returns x
  ∧ int_of_float (fmul (float_of_int Ho) (watermarkScale Wb Hb Wo Ho))
    = Returns y.
Proof.
  unfold new_size, zero_divisor, watermarkScale, widthTerm, heightTerm,
    scaleSize, fitConstant, ratio, aspectOverlay, aspectBase, truediv.
  destruct (is_zero (float_of_int Hb)); [done|].
  destruct (is_zero (float_of_int Ho)); [done|].
  cbn [mbind outcome_bind orb].
  destruct (is_zero (fdiv (float_of_int Wb) (float_of_int Hb))); [done|].
  cbn [mbind outcome_bind orb].
  destruct (is_zero (fmul _ (float_of_int Wo))); [done|].
  cbn [mbind outcome_bind orb].
  destruct (is_zero (fmul _ (float_of_int Ho))); [done|].
  cbn [mbind outcome_bind orb].
  destruct (int_of_float (fmul (float_of_int Wo) _)) as [x'|]; [|done].
  cbn [mbind outcome_bind].
  destruct (int_of_float (fmul (float_of_int Ho) _)) as [y'|]; [|done].
  cbn [mbind outcome_bind]. by intros [= <- <-].
Qed.

(** C7. The size [add_watermark] computes is the one of steps 1 to 5 of the
    fitter with the constants 1.071 and 5.419, each dimension cut to its
    integer part by [int]; it raises [ZeroDivisionError] exactly when a
    divisor is zero. *)
Theorem new_size_truncates (Wb Hb Wo Ho : Z) :
  new_size (Wb, Hb) (Wo, Ho)
  = if zero_divisor Wb Hb Wo Ho then Raises ZeroDivisionError
    else newSize Wb Hb Wo Ho int_of_float.
Proof.
  unfold new_size, newSize, zero_divisor, watermarkScale, widthTerm,
    heightTerm, scaleSize, fitConstant, ratio, aspectOverlay, aspectBase,
    truediv.
  destruct (is_zero (float_of_int Hb)); [done|].
  destruct (is_zero (float_of_int Ho)); [done|].
  cbn [mbind outcome_bind orb].
  destruct (is_zero (fdiv (float_of_int Wb) (float_of_int Hb))); [done|].
  cbn [mbind outcome_bind orb].
  destruct (is_zero (fmul _ (float_of_int Wo))); [done|].
  cbn [mbind outcome_bind orb].
  destruct (is_zero (fmul _ (float_of_int Ho))); done.
Qed.

End fitter_facts.

(** The literals of the source are the doubles this development writes as
    quotients. *)
Example literal_1_071 : literal (F := float) 1071 1000 = 1.071%float.
Proof. reflexivity. Qed.

Example literal_5_419 : literal (F := float) 5419 1000 = 5.419%float.
Proof. reflexivity. Qed.

(** On an 800 x 600 image a 1600 x 400 watermark is resized to 746 x 186;
    the products are about 746.97 and 186.74. *)
Example new_size_800_600_1600_400 :
  new_size (F := float) (800, 600) (1600, 400) = Returns (746, 186).
Proof. vm_compute. reflexivity. Qed.

(** C7, as stated: rounding to the nearest integer would give 747 x 187. *)
Lemma new_size_does_not_round :
  new_size (F := float) (800, 600) (1600, 400)
  ≠ newSize (F := float) 800 600 1600 400 Binary64.round.
Proof. vm_compute. discriminate. Qed.

Section fitter_order.
Context {F : Type} `{!PyFloat F} `{!PyFloatLaws F}.

Local Notation "a ⊑ b" := (fle a b = true) (at level 70).
Local Abbreviation zero := (float_of_int 0).

Lemma float_of_int_nonneg (n : Z) : 0 ≤ n → n < 2 ^ 63 → zero ⊑ float_of_int n.
Proof. intros. by apply float_of_int_mono. Qed.

Lemma literal_nonneg (digits : Z) :
  0 ≤ digits < 2 ^ 63 →
  literal digits 1000 ⊑ literal digits 1000 →
  zero ⊑ literal digits 1000.
Proof.
  intros Hd Hdef. unfold literal in *. apply fdiv_nonneg; [| | |done].
  - apply float_of_int_nonneg; lia.
  - apply float_of_int_nonneg; lia.
  - apply float_of_int_nonzero; lia.
Qed.

Lemma py_max_ge_l (a b : F) : a ⊑ a → a ⊑ py_max a b.
Proof.
  intros Ha. unfold py_max. destruct (flt a b) eqn:Hlt; [|done].
  by apply flt_fle.
Qed.

Lemma py_max_defined_l (a b : F) : py_max a b ⊑ py_max a b → a ⊑ a.
Proof.
  unfold py_max. destruct (flt a b) eqn:Hlt; [|done].
  intros _. apply flt_fle in Hlt. by apply fle_defined in Hlt as [? ?].
Qed.

(** A run that returns: every intermediate value on the way to the width
    term is defined and not negative. *)
Lemma fitter_run (Wb Hb Wo Ho x y : Z) :
  0 < Wb < 2 ^ 63 → 0 < Hb < 2 ^ 63 → 0 < Wo < 2 ^ 63 → 0 < Ho < 2 ^ 63 →
  new_size (Wb, Hb) (Wo, Ho) = Returns (x, y) →
  let den := fmul (scaleSize Wb Hb Wo Ho) (float_of_int Wo) in
  (is_zero (float_of_int Ho) = false ∧ is_zero (aspectBase Wb Hb) = false
   ∧ is_zero den = false)
  ∧ (aspectOverlay Wo Ho ⊑ aspectOverlay Wo Ho
     ∧ ratio Wb Hb Wo Ho ⊑ ratio Wb Hb Wo Ho
     ∧ scaleSize Wb Hb Wo Ho ⊑ scaleSize Wb Hb Wo Ho
     ∧ den ⊑ den
     ∧ widthTerm Wb Hb Wo Ho ⊑ widthTerm Wb Hb Wo Ho)
  ∧ (zero ⊑ aspectOverlay Wo Ho ∧ zero ⊑ aspectBase Wb Hb
     ∧ zero ⊑ ratio Wb Hb Wo Ho ∧ zero ⊑ fitConstant Wo Ho
     ∧ zero ⊑ scaleSize Wb Hb Wo Ho ∧ zero ⊑ den
     ∧ zero ⊑ widthTerm Wb Hb Wo Ho)
  ∧ widthTerm Wb Hb Wo Ho ⊑ watermarkScale Wb Hb Wo Ho
  ∧ int_of_float (fmul (float_of_int Wo) (watermarkScale Wb Hb Wo Ho))
    = Returns x
  ∧ int_of_float (fmul (float_of_int Ho) (watermarkScale Wb Hb Wo Ho))
    = Returns y.
Proof.
  intros HWb HHb HWo HHo Hrun den.
  apply new_size_returns in Hrun as (Hz & Hx & Hy).
  unfold zero_divisor in Hz.
  repeat (apply orb_false_iff in Hz as [Hz ?]).
  fold den in H0.
  (* definedness, backwards from the product that [int] accepted *)
  pose proof (int_of_float_defined _ _ Hx) as Dpx.
  apply fmul_defined in Dpx as [_ Ds].
  pose proof (py_max_defined_l _ _ Ds) as DW.
  pose proof DW as Dden. unfold widthTerm in Dden.
  apply fdiv_defined in Dden as [_ Dden]. fold den in Dden.
  pose proof Dden as Dss. apply fmul_defined in Dss as [Dss _].
  pose proof Dss as Dc. unfold scaleSize in Dc.
  apply fmul_defined in Dc as [Dc Dratio].
  pose proof Dratio as Dao. unfold ratio in Dao.
  apply fdiv_defined in Dao as [Dao Dab].
  (* signs, forwards *)
  assert (zero ⊑ aspectOverlay Wo Ho) as Nao.
  { apply fdiv_nonneg; [apply float_of_int_nonneg; lia..|done|done]. }
  assert (zero ⊑ aspectBase Wb Hb) as Nab.
  { apply fdiv_nonneg; [apply float_of_int_nonneg; lia..|done|done]. }
  assert (zero ⊑ ratio Wb Hb Wo Ho) as Nratio by (by apply fdiv_nonneg).
  assert (zero ⊑ fitConstant Wo Ho) as Nc.
  { unfold fitConstant in *.
    destruct (flt (float_of_int 1) (aspectOverlay Wo Ho));
      apply literal_nonneg; (lia || done). }
  assert (zero ⊑ scaleSize Wb Hb Wo Ho) as Nss by (by apply fmul_nonneg).
  assert (zero ⊑ den) as Nden.
  { apply fmul_nonneg; [done| |done]. apply float_of_int_nonneg; lia. }
  assert (zero ⊑ widthTerm Wb Hb Wo Ho) as NW.
  { apply fdiv_nonneg; [|done..]. apply float_of_int_nonneg; lia. }
  repeat split; try done.
  by apply py_max_ge_l.
Qed.


End fitter_order.



(** The same two sizes come out in exact arithmetic: rounding is not what
    makes the area shrink. *)
Example new_size_wider_overlay_exact :
  new_size (F := Q) (800, 600) (1600, 400) = Returns (746, 186)
  ∧ new_size (F := Q) (800, 600) (3200, 400) = Returns (746, 93).
Proof. split; vm_compute; reflexivity. Qed.

(** Why the two overlays must lie on the same side of the orientation
    test: at the step from landscape to square the constant jumps from
    1.071 to 5.419. *)
Example new_area_landscape_to_square :
  new_size (F := float) (100, 100) (100, 99) = Returns (93, 92)
  ∧ new_size (F := float) (100, 100) (100, 100) = Returns (18, 18).
Proof. split; vm_compute; reflexivity. Qed.

(** Why the first overlay must have the width term as its scale: with the
    height term the new width is 1071 / 1.071 up to rounding, and binary64
    puts it on either side of 1000, where exact arithmetic gives 1000. *)
Example new_size_height_term_binary64 :
  flt (F := float) (widthTerm 1071 600 3200 401) (heightTerm 1071 600 3200 401)
  = true
  ∧ new_size (F := float) (1071, 600) (3200, 401) = Returns (1000, 125)
  ∧ new_size (F := float) (1071, 600) (3200, 402) = Returns (999, 125)
  ∧ new_size (F := Q) (1071, 600) (3200, 402) = Returns (1000, 125).
Proof. repeat split; vm_compute; reflexivity. Qed.

(** In binary64, on an 800 x 600 image: the test [area_grows] succeeds for
    every overlay width and every pair of heights up to 48. *)
Example area_grows_binary64 :
  forallb (λ Wo,
    forallb (λ Ho1,
      forallb (λ d, area_grows (F := float) 800 600 Wo Ho1 (Ho1 + d))
        (seqZ 0 48))
      (seqZ 1 48))
    (seqZ 1 48) = true.
Proof. vm_compute. reflexivity. Qed.

(** * Further properties *)

(** ** Encoding twice, and what the encoder never touches *)

Lemma embed_embed_pixel (x y1 y2 : Z) :
  uint8 x → is_bit y1 → is_bit y2 →
  Z.lor (Z.land (Z.lor (Z.land x 0xFE) y1) 0xFE) y2 = Z.lor (Z.land x 0xFE) y2.
Proof.
  intros Hx [-> | ->] [-> | ->]; by_uint8_cases x Hx.
Qed.

Lemma embed_embed (r b1 b2 : list Z) :
  Forall uint8 r → Forall is_bit b1 → Forall is_bit b2 →
  length b1 = length r → length b2 = length r →
  embed (embed r b1) b2 = embed r b2.
Proof.
  intros Hr Hb1 Hb2 Hl1 Hl2. apply list_eq. intros i.
  destruct (r !! i) as [x|] eqn:Hx.
  - destruct (lookup_lt_is_Some_2 b1 i) as [y1 Hy1].
    { rewrite Hl1. by eapply lookup_lt_Some. }
    destruct (lookup_lt_is_Some_2 b2 i) as [y2 Hy2].
    { rewrite Hl2. by eapply lookup_lt_Some. }
    assert (uint8 x) by exact (Forall_lookup_1 _ _ _ _ Hr Hx).
    assert (is_bit y1) by exact (Forall_lookup_1 _ _ _ _ Hb1 Hy1).
    assert (is_bit y2) by exact (Forall_lookup_1 _ _ _ _ Hb2 Hy2).
    rewrite (embed_lookup r b2 i x y2) by done.
    rewrite (embed_lookup (embed r b1) b2 i (Z.lor (Z.land x 0xFE) y1) y2).
    + by rewrite embed_embed_pixel.
    + by apply embed_uint8.
    + done.
    + by apply embed_lookup.
    + done.
  - apply lookup_ge_None_1 in Hx.
    rewrite !(lookup_ge_None_2 _ i); [done|..]; rewrite !length_embed; lia.
Qed.

Section lsb_extras.
Context {obj : Type} `{!Pickle obj}.

Lemma length_taken_bits (data : obj) (size : nat * nat) :
  length (take (npixels size) (payload_bits data size)) = npixels size.
Proof.
  rewrite length_take. pose proof (length_payload_bits data size). lia.
Qed.

(** X1. The image [lsb_encode] makes from an RGB image with at least one
    pixel is again an RGB image of three 8-bit bands of the same size: it
    can be decoded, and encoded again. *)
Theorem lsb_encode_rgb_image (data : obj) (im : image) :
  rgb_image im →
  (0 < npixels (im_size im))%nat →
  ∃ im', lsb_encode data im = Returns im'
    ∧ rgb_image im' ∧ im_size im' = im_size im.
Proof.
  intros Him Hpos.
  destruct (rgb_image_inv im Him) as (r & g & b & -> & [Hr Hr8] & Hg & Hb).
  simpl in *. set (size := im_size _) in *.
  eexists. split; [by apply lsb_encode_3|]. split; [|done].
  split; [done|]. split; [done|]. unfold wf_image. simpl.
  repeat (apply Forall_cons; split); [|done|done|constructor].
  split.
  - rewrite length_embed, length_taken_bits. lia.
  - apply embed_uint8; [done|]. apply Forall_take, payload_bits_bits.
Qed.

(** X2. The last payload wins: encoding a second payload into an encoded
    image gives the image the second payload alone would have given. *)
Theorem lsb_encode_overwrites (data1 data2 : obj) (im : image) :
  rgb_image im →
  lsb_encode data1 im ≫= lsb_encode data2 = lsb_encode data2 im.
Proof.
  intros Him.
  destruct (decide (npixels (im_size im) = 0%nat)) as [Hzero|Hpos].
  { by rewrite !lsb_encode_no_pixels. }
  destruct (rgb_image_inv im Him) as (r & g & b & -> & [Hr Hr8] & _ & _).
  simpl in *. set (size := im_size _) in *.
  rewrite !lsb_encode_3 by lia. cbn [mbind outcome_bind].
  rewrite lsb_encode_3 by lia.
  do 2 f_equal. f_equal.
  apply embed_embed; try done.
  - apply Forall_take, payload_bits_bits.
  - apply Forall_take, payload_bits_bits.
  - rewrite length_taken_bits. lia.
  - rewrite length_taken_bits. lia.
Qed.

(** X3. [lsb_encode] returns exactly on the images of three bands and at
    least one pixel, whatever their mode and whatever the payload's
    length, and raises [ValueError] on every other image; the image it
    returns is in mode RGB and has the size of the input. *)
Theorem lsb_encode_returns_iff (data : obj) (im : image) :
  ((length (im_bands im) = 3%nat ∧ (0 < npixels (im_size im))%nat)
   ↔ ∃ im', lsb_encode data im = Returns im')
  ∧ ((length (im_bands im) ≠ 3%nat ∨ npixels (im_size im) = 0%nat)
     ↔ lsb_encode data im = Raises ValueError)
  ∧ ∀ im', lsb_encode data im = Returns im' →
      im_mode im' = "RGB" ∧ im_size im' = im_size im.
Proof.
  destruct (decide (npixels (im_size im) = 0%nat)) as [Hzero|Hpos].
  { rewrite lsb_encode_no_pixels by done.
    split; [|split; [|done]]; split; try done.
    - lia.
    - by intros [im' ?].
    - by right. }
  destruct (decide (length (im_bands im) = 3%nat)) as [H3|H3].
  - destruct im as [mode size [|r [|g [|b [|a l]]]]]; try done.
    simpl in Hpos. rewrite lsb_encode_3 by lia.
    split; [|split].
    + split; [eauto|]. intros _. simpl. split; [done|lia].
    + split; [|done]. simpl. intros [?|?]; done.
    + by intros im' [= <-].
  - assert (lsb_encode data im = Raises ValueError) as ->.
    { unfold lsb_encode, frombytes.
      rewrite (decide_False (P := npixels (im_size im) = 0%nat)) by done.
      rewrite decide_False; [by rewrite (unpack3_split_other im)|].
      rewrite length_app, length_replicate. lia. }
    split; [|split; [|done]]; split; try done.
    + by intros [? _].
    + by intros [im' ?].
    + by left.
Qed.

Lemma extract_land (r : list Z) : extract r = (λ x, Z.land x 0x1) <$> r.
Proof.
  unfold extract. rewrite <- list_fmap_compose. apply list_fmap_ext.
  intros i x _. simpl. apply extract_pixel_value.
Qed.

(** X5. [lsb_decode] reads nothing but the low bits of the first band: two
    three-band images whose first bands agree in the low bit of every pixel
    decode alike, whatever their modes, sizes, other bits and other
    bands. *)
Theorem lsb_decode_reads_red_low_bits (im1 im2 : image) (r1 g1 b1 r2 g2 b2 : list Z) :
  im_bands im1 = [r1; g1; b1] →
  im_bands im2 = [r2; g2; b2] →
  (λ x, Z.land x 0x1) <$> r1 = (λ x, Z.land x 0x1) <$> r2 →
  lsb_decode im1 = lsb_decode im2.
Proof.
  destruct im1 as [m1 s1 ?], im2 as [m2 s2 ?]. simpl. intros -> -> Hlow.
  rewrite !lsb_decode_3, !extract_land. by rewrite Hlow.
Qed.

End lsb_extras.

Lemma lsb_decode_reads_red_low_bits_witness :
  lsb_decode (obj := pyobj) (Image "RGB" (2, 1)%nat [[10; 11]; [0; 0]; [0; 0]])
  = lsb_decode (Image "HSV" (1, 2)%nat [[254; 1]; [7; 7]; [9; 9]]).
Proof.
  eapply lsb_decode_reads_red_low_bits; reflexivity.
Defined.

Lemma lsb_encode_rgb_image_witness :
  ∃ im', lsb_encode (str "hi") tiny_image = Returns im' ∧ rgb_image im'.
Proof.
  destruct (lsb_encode_rgb_image (str "hi") tiny_image) as (im' & Hret & Hrgb & _).
  - apply (bool_decide_unpack _). vm_compute. exact I.
  - vm_compute. lia.
  - exists im'. by split.
Defined.

Lemma lsb_encode_overwrites_witness :
  lsb_encode (str "hi") plain_image ≫= lsb_encode PyNone
  = lsb_encode PyNone plain_image.
Proof.
  apply lsb_encode_overwrites.
  apply (bool_decide_unpack _). vm_compute. exact I.
Defined.

(** ** The bytes the decoder reads *)

Lemma length_packbits_from (bits : list Z) (acc : Z) (j : nat) :
  (j ≤ 7)%nat →
  length (packbits_from acc j bits) = ((j + length bits + 7) / 8)%nat.
Proof.
  revert acc j. induction bits as [|b bits IH]; intros acc j Hj.
  - cbn [packbits_from length]. case_decide; cbn [length].
    + subst. reflexivity.
    + apply (Nat.div_unique _ 8 1 (j - 1)); lia.
  - cbn [packbits_from length]. case_decide.
    + subst. cbn [length]. rewrite IH by lia. rewrite Nat.add_0_l.
      apply (Nat.div_unique _ 8 _ ((length bits + 7) `mod` 8)).
      * apply Nat.mod_upper_bound. lia.
      * pose proof (Nat.div_mod_eq (length bits + 7) 8). lia.
    + rewrite IH by lia. f_equal. lia.
Qed.

Lemma length_packbits (bits : list Z) :
  length (packbits bits) = ((length bits + 7) / 8)%nat.
Proof. unfold packbits. by rewrite length_packbits_from by lia. Qed.

Lemma packbits_from_zeros (k j : nat) :
  (j ≤ 7)%nat → Forall (λ v, v = 0) (packbits_from 0 j (replicate k 0)).
Proof.
  revert j. induction k as [|k IH]; intros j Hj.
  - simpl. case_decide; repeat constructor. apply Z.shiftl_0_l.
  - cbn [replicate packbits_from].
    change (2 * 0 + (if decide (0 = 0) then 0 else 1)) with 0. case_decide.
    + constructor; [done|]. apply IH. lia.
    + apply IH. lia.
Qed.

Lemma packbits_zeros (k : nat) :
  to_bytes (packbits (replicate k 0)) = replicate ((k + 7) / 8) "000"%byte.
Proof.
  pose proof (packbits_from_zeros k 0) as Hz.
  pose proof (length_packbits (replicate k 0)) as Hl.
  rewrite length_replicate in Hl. unfold packbits in *.
  rewrite <- Hl. unfold to_bytes. rewrite <- length_fmap with (f := byte_of_Z).
  symmetry. apply replicate_as_Forall_2; [done|].
  apply Forall_fmap. eapply Forall_impl; [apply Hz; lia|].
  by intros v ->.
Qed.

Lemma unpackbits_app (a b : list Z) :
  unpackbits (a ++ b) = unpackbits a ++ unpackbits b.
Proof. unfold unpackbits. apply bind_app. Qed.

Lemma length_carrier_bytes (red : list Z) :
  length (carrier_bytes red) = ((length red + 7) / 8)%nat.
Proof.
  unfold carrier_bytes, to_bytes, extract.
  by rewrite length_fmap, length_packbits, !length_fmap.
Qed.

Section carrier.
Context {obj : Type} `{!Pickle obj}.

(** The red band after encoding carries the first [k] bytes of the pickle,
    for every [k] that fits, and after them what is left of the bits. *)
Lemma carrier_split (data : obj) (size : nat * nat) (r : list Z) (k : nat) :
  Forall uint8 r → length r = npixels size →
  (k ≤ length (dump data))%nat → (8 * k ≤ npixels size)%nat →
  carrier_bytes (embed r (take (npixels size) (payload_bits data size)))
  = take k (dump data)
    ++ to_bytes (packbits
         (take (npixels size - 8 * k)
            (unpackbits (fromiter (drop k (dump data)))
             ++ replicate (npixels size - 8 * length (dump data)) 0))).
Proof.
  intros Hr8 Hr Hk Hfit. unfold carrier_bytes.
  rewrite extract_embed.
  2: done.
  2: apply Forall_take, payload_bits_bits.
  2: by rewrite length_taken_bits.
  unfold payload_bits. cbn zeta.
  rewrite length_unpackbits. unfold fromiter at 2. rewrite length_fmap.
  rewrite <- (take_drop k (dump data)) at 1.
  unfold fromiter at 1. rewrite fmap_app. fold (fromiter (take k (dump data))).
  fold (fromiter (drop k (dump data))).
  rewrite unpackbits_app, <- app_assoc.
  rewrite take_app_ge.
  2: { rewrite length_unpackbits. unfold fromiter.
       rewrite length_fmap, length_take. lia. }
  rewrite packbits_unpackbits. f_equal. do 3 f_equal.
  rewrite length_unpackbits. unfold fromiter.
  rewrite length_fmap, length_take. lia.
Qed.

Lemma carrier_fit (data : obj) (size : nat * nat) (r : list Z) :
  Forall uint8 r → length r = npixels size →
  (length (dump data) * 8 ≤ npixels size)%nat →
  carrier_bytes (embed r (take (npixels size) (payload_bits data size)))
  = dump data
    ++ replicate ((npixels size - 8 * length (dump data) + 7) / 8) "000"%byte.
Proof.
  intros Hr8 Hr Hfit.
  rewrite (carrier_split data size r (length (dump data))) by (done || lia).
  rewrite take_ge, drop_ge by lia. cbn [fromiter fmap list_fmap].
  change (unpackbits []) with (@nil Z). cbn [app].
  rewrite take_ge by (rewrite length_replicate; lia).
  by rewrite packbits_zeros.
Qed.

(** X6. When the pickle fits (8*B <= W*H), the bytes the decoder will read
    from the encoded image are the pickle followed by zero bytes, one for
    every eight pixels left over or part of eight. *)
Theorem carrier_is_pickle_then_zeros (data : obj) (im im' : image) :
  rgb_image im →
  (length (dump data) * 8 ≤ npixels (im_size im))%nat →
  lsb_encode data im = Returns im' →
  ∃ red' g b, im_bands im' = [red'; g; b]
    ∧ carrier_bytes red'
      = dump data
        ++ replicate ((npixels (im_size im) - 8 * length (dump data) + 7) / 8)
             "000"%byte.
Proof.
  intros Him Hfit Hret.
  pose proof (lsb_encode_Returns_pixels _ _ _ Hret) as Hpos. revert Hret.
  destruct (rgb_image_inv im Him) as (r & g & b & -> & [Hr Hr8] & _ & _).
  simpl in *. set (size := im_size _) in *.
  rewrite lsb_encode_3 by done. intros [= <-]. do 3 eexists. split; [done|].
  by apply carrier_fit.
Qed.

(** X7. On an image of three bands, the first of W*H pixels, [lsb_decode]
    hands [pickle.load] ceil(W*H/8) bytes, and returns what [load] returns,
    the empty string for an [UnpicklingError]. *)
Theorem lsb_decode_reads_all_pixels (im : image) (r g b : list Z) :
  im_bands im = [r; g; b] →
  length r = npixels (im_size im) →
  length (carrier_bytes r) = ((npixels (im_size im) + 7) / 8)%nat
  ∧ lsb_decode im
    = try_except (load (carrier_bytes r)) UnpicklingError empty_str.
Proof.
  destruct im as [mode size bands]. simpl. intros -> Hr. split.
  - by rewrite length_carrier_bytes, Hr.
  - apply lsb_decode_3.
Qed.

(** X8. When the pickle does not fit (8*B >= W*H), the decoder will read
    ceil(W*H/8) bytes from the encoded image, and the first W*H/8 of them
    are the first bytes of the pickle. *)
Theorem carrier_is_pickle_prefix (data : obj) (im im' : image) :
  rgb_image im →
  (npixels (im_size im) ≤ length (dump data) * 8)%nat →
  lsb_encode data im = Returns im' →
  ∃ red' g b, im_bands im' = [red'; g; b]
    ∧ length (carrier_bytes red') = ((npixels (im_size im) + 7) / 8)%nat
    ∧ take (npixels (im_size im) / 8) (carrier_bytes red')
      = take (npixels (im_size im) / 8) (dump data).
Proof.
  intros Him Hbig Hret.
  pose proof (lsb_encode_Returns_pixels _ _ _ Hret) as Hpos. revert Hret.
  destruct (rgb_image_inv im Him) as (r & g & b & -> & [Hr Hr8] & _ & _).
  simpl in *. set (size := im_size _) in *.
  rewrite lsb_encode_3 by done. intros [= <-]. do 3 eexists. split; [done|].
  pose proof (Nat.Div0.mul_div_le (npixels size) 8) as Hdiv.
  split.
  - by rewrite length_carrier_bytes, length_embed, length_taken_bits, Hr,
      Nat.min_id.
  - assert (npixels size / 8 ≤ length (dump data))%nat as Hk by lia.
    rewrite (carrier_split data size r (npixels size / 8)) by (done || lia).
    rewrite take_app_length'; [done|]. rewrite length_take.
    symmetry. by apply Nat.min_l.
Qed.

End carrier.

Lemma carrier_is_pickle_then_zeros_witness :
  ∃ im' red' g b,
    HiddenWatermarkProcessor_process plain_image = Returns im'
    ∧ im_bands im' = [red'; g; b]
    ∧ carrier_bytes red'
      = dumps (str "django-watermark-images") ++ ["000"; "000"]%byte.
Proof.
  assert (0 < npixels (20, 16))%nat as Hpos by (vm_compute; lia).
  pose proof (lsb_encode_3 (str "django-watermark-images") "RGB" (20, 16)%nat
                (replicate 320 200) (replicate 320 117) (replicate 320 36) Hpos)
    as Hencode.
  edestruct (carrier_is_pickle_then_zeros (str "django-watermark-images")
               plain_image) as (red' & g & b & Hbands & Hbytes).
  - apply (bool_decide_unpack _). vm_compute. exact I.
  - vm_compute. lia.
  - exact Hencode.
  - eexists _, red', g, b. split; [exact Hencode|]. by split.
Defined.

Lemma lsb_decode_reads_all_pixels_witness :
  length (carrier_bytes [10; 11; 10; 10; 11; 11; 11; 10]) = 1%nat
  ∧ lsb_decode (obj := pyobj) unfinished_pickle_image
    = try_except (load (carrier_bytes [10; 11; 10; 10; 11; 11; 11; 10]))
        UnpicklingError empty_str.
Proof.
  apply (lsb_decode_reads_all_pixels unfinished_pickle_image
           _ (replicate 8 0) (replicate 8 0)); reflexivity.
Defined.

Lemma carrier_is_pickle_prefix_witness :
  ∃ im' red' g b,
    lsb_encode (str "hi") tiny_image = Returns im'
    ∧ im_bands im' = [red'; g; b]
    ∧ take 2 (carrier_bytes red') = [PROTO; "004"%byte].
Proof.
  assert (0 < npixels (4, 4))%nat as Hpos by (vm_compute; lia).
  pose proof (lsb_encode_3 (str "hi") "RGB" (4, 4)%nat
                (replicate 16 255) (replicate 16 254) (replicate 16 0) Hpos)
    as Hencode.
  edestruct (carrier_is_pickle_prefix (str "hi") tiny_image)
    as (red' & g & b & Hbands & _ & Hbytes).
  - apply (bool_decide_unpack _). vm_compute. exact I.
  - vm_compute. lia.
  - exact Hencode.
  - eexists _, red', g, b. split; [exact Hencode|]. split; [exact Hbands|].
    exact Hbytes.
Defined.

(** ** One pixel fewer, and the hidden watermark *)

(** Seven bits of a byte whose low bit is zero pack into the byte. *)
Lemma packbits_seven (b : byte) :
  Z.even (Z_of_byte b) = true →
  to_bytes (packbits (take 7 (unpack8 (Z_of_byte b)))) = [b].
Proof. destruct b; intros Heven; (discriminate Heven || reflexivity). Qed.

Section short_carrier.
Context {obj : Type} `{!Pickle obj}.

Lemma carrier_one_bit_short (data : obj) (size : nat * nat) (r : list Z)
    (pre : list byte) (last : byte) :
  Forall uint8 r → length r = npixels size →
  dump data = pre ++ [last] → Z.even (Z_of_byte last) = true →
  (npixels size + 1 = length (dump data) * 8)%nat →
  carrier_bytes (embed r (take (npixels size) (payload_bits data size)))
  = dump data.
Proof.
  intros Hr8 Hr Hdump Heven Hn.
  assert (length (dump data) = S (length pre)) as Hlen
    by (rewrite Hdump, length_app; simpl; lia).
  rewrite (carrier_split data size r (length pre)) by (done || lia).
  rewrite Hdump at 1 2. rewrite take_app_length, drop_app_length.
  replace (npixels size - 8 * length pre)%nat with 7%nat by lia.
  change (unpackbits (fromiter [last])) with (unpack8 (Z_of_byte last) ++ []).
  rewrite <- app_assoc, take_app_le by (rewrite length_unpack8; lia).
  by rewrite packbits_seven.
Qed.

(** X9. The bound 8*B <= W*H is not the last image that works: a pickle
    ends in a byte whose low bit is 0 (the opcode [STOP] is 0x2E), and on
    an RGB image with one pixel fewer, W*H = 8*B - 1, the zero bit
    [np.packbits] fills in is that bit; the payload still comes back. *)
Theorem lsb_roundtrip_one_pixel_fewer (data : obj) (im : image)
    (pre : list byte) (last : byte) :
  rgb_image im →
  dump data = pre ++ [last] → Z.even (Z_of_byte last) = true →
  load (dump data) = Returns data →
  (npixels (im_size im) + 1 = length (dump data) * 8)%nat →
  lsb_encode data im ≫= lsb_decode = Returns data.
Proof.
  intros Him Hdump Heven Hload Hn.
  destruct (rgb_image_inv im Him) as (r & g & b & -> & [Hr Hr8] & _ & _).
  simpl in *. set (size := im_size _) in *.
  assert (0 < npixels size)%nat as Hpos.
  { pose proof (f_equal length Hdump) as Hlen.
    rewrite length_app in Hlen. simpl in Hlen. lia. }
  rewrite lsb_encode_3 by done. cbn [mbind outcome_bind]. rewrite lsb_decode_3.
  fold (carrier_bytes (embed r (take (npixels size) (payload_bits data size)))).
  rewrite (carrier_one_bit_short data size r pre last) by done.
  by rewrite Hload.
Qed.

End short_carrier.

Lemma run_FRAME_truncated fuel stack frame input :
  length frame = 8%nat →
  Z.of_nat (length input) < le_value frame < 2 ^ 63 →
  run (S fuel) stack (FRAME :: frame ++ input) = Raises UnpicklingError.
Proof.
  intros Hlen Hin. cbn [run].
  do 3 rewrite decide_False by done. rewrite decide_True by done.
  rewrite (read_app frame) by (by rewrite Hlen). cbn [mbind outcome_bind].
  rewrite decide_False by lia.
  unfold read. by rewrite decide_False by lia.
Qed.

(** X10. What [HiddenWatermarkProcessor.process] makes of an RGB image of
    at least 303 pixels decodes to the string ['django-watermark-images'].
    Its pickle has 38 bytes, 304 bits. *)
Theorem hidden_watermark_roundtrip (im : image) :
  rgb_image im →
  (303 ≤ npixels (im_size im))%nat →
  HiddenWatermarkProcessor_process im ≫= lsb_decode
  = Returns (str "django-watermark-images").
Proof.
  intros Him Hn. unfold HiddenWatermarkProcessor_process.
  destruct (rgb_image_inv im Him) as (r & g & b & -> & [Hr Hr8] & _ & _).
  simpl in *. set (size := im_size _) in *.
  rewrite lsb_encode_3 by lia. cbn [mbind outcome_bind]. rewrite lsb_decode_3.
  fold (carrier_bytes
          (embed r (take (npixels size)
                      (payload_bits (str "django-watermark-images") size)))).
  destruct (decide (npixels size = 303%nat)) as [H303|H303].
  - rewrite (carrier_one_bit_short _ size r
               (take 37 (dumps (str "django-watermark-images"))) STOP);
      [|done|done|reflexivity|reflexivity|].
    + change (load (dump ?d)) with (loads (dumps d ++ [])).
      rewrite loads_dumps; [done|]. split; [vm_compute; lia|reflexivity].
    + rewrite H303. reflexivity.
  - rewrite carrier_fit; [|done|done|].
    + change (load (dump ?d ++ ?rest)) with (loads (dumps d ++ rest)).
      rewrite loads_dumps; [done|]. split; [vm_compute; lia|reflexivity].
    + change (length (dump (str "django-watermark-images"))) with 38%nat. lia.
Qed.

(** X11. On an RGB image of 88 to 296 pixels the same string is cut short
    without an error: the image made has room for the eleven bytes that
    announce a frame of 27 bytes and for fewer than 27 bytes after them,
    [pickle.load] raises [UnpicklingError], and [lsb_decode] returns the
    empty string. *)
Theorem hidden_watermark_too_small (im : image) :
  rgb_image im →
  (88 ≤ npixels (im_size im) ≤ 296)%nat →
  HiddenWatermarkProcessor_process im ≫= lsb_decode = Returns (str "").
Proof.
  intros Him [Hlo Hhi]. unfold HiddenWatermarkProcessor_process.
  destruct (rgb_image_inv im Him) as (r & g & b & -> & [Hr Hr8] & _ & _).
  simpl in *. set (size := im_size _) in *.
  rewrite lsb_encode_3 by lia. cbn [mbind outcome_bind]. rewrite lsb_decode_3.
  fold (carrier_bytes
          (embed r (take (npixels size)
                      (payload_bits (str "django-watermark-images") size)))).
  rewrite (carrier_split _ size r 11); [|done|done|vm_compute; lia|lia].
  set (tail := to_bytes _).
  assert (length tail ≤ 26)%nat as Htail.
  { unfold tail, to_bytes. rewrite length_fmap, length_packbits, length_take.
    apply Nat.lt_succ_r, Nat.Div0.div_lt_upper_bound. lia. }
  change (take 11 (dump (str "django-watermark-images")))
    with ([PROTO; "004"%byte; FRAME]
          ++ le_pack 8 27).
  change (load ?bs) with (loads bs). unfold loads.
  rewrite <- app_assoc. cbn [app length].
  rewrite run_PROTO, run_FRAME_truncated; [done|done|].
  change (le_value (le_pack 8 27)) with 27. lia.
Qed.

Lemma lsb_roundtrip_one_pixel_fewer_witness :
  lsb_encode PyNone (new "RGB" (31, 1)%nat [8; 9; 10]) ≫= lsb_decode
  = Returns PyNone.
Proof.
  apply (lsb_roundtrip_one_pixel_fewer PyNone _ [PROTO; "004"%byte; NONE] STOP).
  - apply (bool_decide_unpack _). vm_compute. exact I.
  - reflexivity.
  - reflexivity.
  - reflexivity.
  - reflexivity.
Defined.

Lemma hidden_watermark_roundtrip_witness :
  HiddenWatermarkProcessor_process (new "RGB" (101, 3)%nat [1; 2; 3])
    ≫= lsb_decode
  = Returns (str "django-watermark-images").
Proof.
  apply hidden_watermark_roundtrip.
  - apply (bool_decide_unpack _). vm_compute. exact I.
  - vm_compute. lia.
Defined.

Lemma hidden_watermark_too_small_witness :
  HiddenWatermarkProcessor_process (new "RGB" (10, 10)%nat [1; 2; 3])
    ≫= lsb_decode
  = Returns (str "").
Proof.
  apply hidden_watermark_too_small.
  - apply (bool_decide_unpack _). vm_compute. exact I.
  - vm_compute. lia.
Defined.

(** ** The new size: signs and orientation *)

Section fitter_extras.
Context {F : Type} `{!PyFloat F} `{!PyFloatLaws F}.

Local Notation "a ⊑ b" := (fle a b = true) (at level 70).
Local Abbreviation zero := (float_of_int 0).

Lemma watermarkScale_facts (Wb Hb Wo Ho x y : Z) :
  0 < Wb < 2 ^ 63 → 0 < Hb < 2 ^ 63 → 0 < Wo < 2 ^ 63 → 0 < Ho < 2 ^ 63 →
  new_size (Wb, Hb) (Wo, Ho) = Returns (x, y) →
  zero ⊑ watermarkScale Wb Hb Wo Ho
  ∧ watermarkScale Wb Hb Wo Ho ⊑ watermarkScale Wb Hb Wo Ho
  ∧ int_of_float (fmul (float_of_int Wo) (watermarkScale Wb Hb Wo Ho))
    = Returns x
  ∧ int_of_float (fmul (float_of_int Ho) (watermarkScale Wb Hb Wo Ho))
    = Returns y.
Proof.
  intros HWb HHb HWo HHo Hrun.
  apply fitter_run in Hrun as (_ & _ & (_ & _ & _ & _ & _ & _ & NW) & HW & Hx & Hy);
    [|lia..].
  split; [by eapply fle_trans|].
  split; [by apply fle_defined in HW as [_ ?]|]. done.
Qed.

(** X12. With positive sizes, neither dimension of the new size is
    negative. *)
Theorem new_size_nonneg (Wb Hb Wo Ho x y : Z) :
  0 < Wb < 2 ^ 63 → 0 < Hb < 2 ^ 63 → 0 < Wo < 2 ^ 63 → 0 < Ho < 2 ^ 63 →
  new_size (Wb, Hb) (Wo, Ho) = Returns (x, y) →
  0 ≤ x ∧ 0 ≤ y.
Proof.
  intros HWb HHb HWo HHo Hrun.
  apply watermarkScale_facts in Hrun as (Ns & Ds & Hx & Hy); [|lia..].
  split.
  - eapply int_of_float_nonneg; [|exact Hx].
    apply fmul_nonneg; [apply float_of_int_nonneg; lia|done|].
    by eapply int_of_float_defined.
  - eapply int_of_float_nonneg; [|exact Hy].
    apply fmul_nonneg; [apply float_of_int_nonneg; lia|done|].
    by eapply int_of_float_defined.
Qed.

(** X13. The new size keeps the watermark's orientation: a watermark no
    wider than high stays so, and one no higher than wide stays so. *)
Theorem new_size_keeps_orientation (Wb Hb Wo Ho x y : Z) :
  0 < Wb < 2 ^ 63 → 0 < Hb < 2 ^ 63 → 0 < Wo < 2 ^ 63 → 0 < Ho < 2 ^ 63 →
  new_size (Wb, Hb) (Wo, Ho) = Returns (x, y) →
  (Wo ≤ Ho → x ≤ y) ∧ (Ho ≤ Wo → y ≤ x).
Proof.
  intros HWb HHb HWo HHo Hrun.
  apply watermarkScale_facts in Hrun as (Ns & Ds & Hx & Hy); [|lia..].
  pose proof (int_of_float_defined _ _ Hx) as Dx.
  pose proof (int_of_float_defined _ _ Hy) as Dy.
  split; intros Hle.
  - eapply int_of_float_mono; [|exact Hx|exact Hy].
    apply fmul_mono; try done.
    + apply float_of_int_nonneg; lia.
    + apply float_of_int_mono; lia.
  - eapply int_of_float_mono; [|exact Hy|exact Hx].
    apply fmul_mono; try done.
    + apply float_of_int_nonneg; lia.
    + apply float_of_int_mono; lia.
Qed.

End fitter_extras.

Lemma new_size_nonneg_witness :
  0 ≤ 746 ∧ 0 ≤ 186.
Proof.
  apply (new_size_nonneg (F := Q) 800 600 1600 400); try lia.
  vm_compute. reflexivity.
Defined.

Lemma new_size_keeps_orientation_witness :
  (300 ≤ 400 → 262 ≤ 349) ∧ (400 ≤ 300 → 349 ≤ 262).
Proof.
  apply (new_size_keeps_orientation (F := Q) 800 600 300 400); try lia.
  vm_compute. reflexivity.
Defined.

(** In binary64 a height of zero, of the image or of the watermark, ends
    the computation in a [ZeroDivisionError]. *)
Example new_size_zero_height_binary64 :
  new_size (F := float) (800, 0) (1600, 400) = Raises ZeroDivisionError
  ∧ new_size (F := float) (800, 600) (1600, 0) = Raises ZeroDivisionError.
Proof. split; vm_compute; reflexivity. Qed.

(** ** Where the watermark is pasted *)

(** X15. The watermark is pasted in the middle: the margin on the right is
    the margin on the left or one pixel more, and likewise below and above.
    The offsets are negative exactly when the watermark is the larger. *)
Theorem paste_position_centred (image_x image_y watermark_x watermark_y : Z) :
  let '(x, y) :=
    paste_position (image_x, image_y) (watermark_x, watermark_y) in
  let margin_right := image_x - (x + watermark_x) in
  let margin_below := image_y - (y + watermark_y) in
  (x ≤ margin_right ≤ x + 1) ∧ (y ≤ margin_below ≤ y + 1)
  ∧ (x < 0 ↔ image_x < watermark_x) ∧ (y < 0 ↔ image_y < watermark_y).
Proof.
  unfold paste_position. cbv zeta.
  pose proof (Z.div_mod (image_x - watermark_x) 2).
  pose proof (Z.mod_pos_bound (image_x - watermark_x) 2).
  pose proof (Z.div_mod (image_y - watermark_y) 2).
  pose proof (Z.mod_pos_bound (image_y - watermark_y) 2).
  lia.
Qed.

(** ** The watermark's alpha *)

Lemma rgb2l_gray (v : Z) : uint8 v → rgb2l v v v = v.
Proof. intros Hv. by_uint8_cases v Hv. Qed.

Lemma mask_of_luminance (lum : list Z) :
  Forall uint8 lum →
  (λ v, default 0 (((λ i, i2l (Z.min i 90)) <$> seqZ 0 256) !! Z.to_nat v))
    <$> lum
  = (λ v, Z.min v 90) <$> lum.
Proof.
  intros Hlum. apply list_eq. intros i. rewrite !list_lookup_fmap.
  destruct (lum !! i) as [v|] eqn:Hv; [|done].
  assert (uint8 v) by exact (Forall_lookup_1 _ _ _ _ Hlum Hv).
  cbn [fmap option_fmap option_map].
  rewrite (point_table (λ x, Z.min x 90)) by done.
  by rewrite cap_pixel.
Qed.

(** X16. The mask is the luminance with everything above 90 set to 90:
    pixel by pixel it is [min(luminance, 90)]. *)
Theorem mask_is_capped_luminance (rgba_watermark : image) :
  rgba_image rgba_watermark →
  getdata (rgba_watermark_mask rgba_watermark)
  = (λ v, Z.min v 90) <$> getdata (convert_rgb_L rgba_watermark).
Proof.
  destruct rgba_watermark as [mode size bands].
  unfold rgba_image, wf_image. simpl. intros (-> & Hlen & Hwf).
  destruct bands as [|r [|g [|b [|a [|? ?]]]]]; try done.
  repeat match goal with H : Forall _ (_ :: _) |- _ => inversion_clear H end.
  repeat match goal with H : channel _ _ |- _ => destruct H end.
  rewrite watermark_mask_4, convert_rgb_L_4.
  apply mask_of_luminance. by apply luminance_uint8.
Qed.

(** X17. A gray pixel of the watermark, red = green = blue = v, gets the
    mask value [min(v, 90)], whatever its alpha: white gets 90 and black
    gets 0. *)
Theorem mask_of_gray_pixel (rgba_watermark : image) (r g b a : list Z)
    (i : nat) (v : Z) :
  rgba_image rgba_watermark →
  im_bands rgba_watermark = [r; g; b; a] →
  r !! i = Some v → g !! i = Some v → b !! i = Some v →
  getdata (rgba_watermark_mask rgba_watermark) !! i = Some (Z.min v 90).
Proof.
  destruct rgba_watermark as [mode size bands].
  unfold rgba_image, wf_image. simpl. intros (-> & Hlen & Hwf) ->.
  repeat match goal with H : Forall _ (_ :: _) |- _ => inversion_clear H end.
  repeat match goal with H : channel _ _ |- _ => destruct H end.
  intros Hr Hg Hb.
  assert (uint8 v) as Hv by (eapply (Forall_lookup_1 _ r); eauto).
  rewrite watermark_mask_4, mask_of_luminance by (by apply luminance_uint8).
  rewrite list_lookup_fmap, !lookup_zip_with, Hr, Hg, Hb. simpl.
  by rewrite rgb2l_gray.
Qed.

(** X18. After [putalpha] the watermark is still an RGBA image of the same
    size with its three colour bands untouched; its alpha band is the mask,
    [min(luminance, 90)], so nothing of the alpha it came with is left and
    no pixel is more opaque than 90. *)
Theorem masked_watermark_alpha (rgba_watermark : image) (r g b a : list Z) :
  rgba_image rgba_watermark →
  im_bands rgba_watermark = [r; g; b; a] →
  let alpha := (λ v, Z.min v 90) <$> zip_with (λ f b, f b) (zip_with rgb2l r g) b in
  masked_watermark rgba_watermark
  = Image "RGBA" (im_size rgba_watermark) [r; g; b; alpha]
  ∧ rgba_image (masked_watermark rgba_watermark)
  ∧ Forall (λ v, 0 ≤ v ≤ 90) alpha.
Proof.
  destruct rgba_watermark as [mode size bands].
  unfold rgba_image, wf_image. simpl. intros (-> & Hlen & Hwf) ->.
  repeat match goal with H : Forall _ (_ :: _) |- _ => inversion_clear H end.
  repeat match goal with H : channel _ _ |- _ => destruct H end.
  assert (Forall uint8 (zip_with (λ f b, f b) (zip_with rgb2l r g) b)) as Hlum
    by (by apply luminance_uint8).
  assert (masked_watermark (Image "RGBA" size [r; g; b; a])
          = Image "RGBA" size
              [r; g; b; (λ v, Z.min v 90)
                          <$> zip_with (λ f b, f b) (zip_with rgb2l r g) b])
    as Heq.
  { unfold masked_watermark, putalpha.
    rewrite watermark_mask_4, mask_of_luminance by done. reflexivity. }
  assert (Forall (λ v, 0 ≤ v ≤ 90)
            ((λ v, Z.min v 90)
               <$> zip_with (λ f b, f b) (zip_with rgb2l r g) b)) as Hcap.
  { apply Forall_fmap. eapply Forall_impl; [exact Hlum|].
    intros v Hv. simpl. unfold uint8 in Hv. lia. }
  split; [exact Heq|]. split; [|exact Hcap].
  cut (rgba_image
         (Image "RGBA" size
            [r; g; b; (λ v, Z.min v 90)
                        <$> zip_with (λ f b, f b) (zip_with rgb2l r g) b])).
  { intros Hrgba. rewrite <- Heq in Hrgba. exact Hrgba. }
  split; [done|]. split; [done|]. unfold wf_image. simpl.
  repeat (apply Forall_cons; split); try done; try constructor.
  - rewrite length_fmap, !length_zip_with. lia.
  - eapply Forall_impl; [exact Hcap|]. intros v Hv. simpl in Hv.
    unfold uint8. lia.
Qed.

Lemma mask_is_capped_luminance_witness :
  getdata (rgba_watermark_mask (new "RGBA" (2, 1)%nat [255; 255; 255; 0]))
  = (λ v, Z.min v 90)
      <$> getdata (convert_rgb_L (new "RGBA" (2, 1)%nat [255; 255; 255; 0])).
Proof.
  apply mask_is_capped_luminance.
  apply (bool_decide_unpack _). vm_compute. exact I.
Defined.

Lemma mask_of_gray_pixel_witness :
  getdata (rgba_watermark_mask (new "RGBA" (2, 1)%nat [255; 255; 255; 0]))
    !! 1%nat
  = Some 90.
Proof.
  apply (mask_of_gray_pixel (new "RGBA" (2, 1)%nat [255; 255; 255; 0])
           [255; 255] [255; 255] [255; 255] [0; 0] 1 255).
  - apply (bool_decide_unpack _). vm_compute. exact I.
  - reflexivity.
  - reflexivity.
  - reflexivity.
  - reflexivity.
Defined.

Lemma masked_watermark_alpha_witness :
  masked_watermark (new "RGBA" (2, 1)%nat [255; 255; 255; 0])
  = Image "RGBA" (2, 1)%nat [[255; 255]; [255; 255]; [255; 255]; [90; 90]].
Proof.
  refine (proj1 (masked_watermark_alpha
                   (new "RGBA" (2, 1)%nat [255; 255; 255; 0])
                   [255; 255] [255; 255] [255; 255] [0; 0] _ _)).
  - apply (bool_decide_unpack _). vm_compute. exact I.
  - reflexivity.
Defined.
